(** * Homebox Backup Manager: the remote backup pipeline

    A shallow embedding of [homebox_backup_gui.py]: the container scan, the
    automatic selection of the containers, the data volume lookup, the
    backup pipeline and the deletion of the archive kept on the server.

    Conventions of the embedding.
    - Python [str] values are [string]s; a character stands for a code point
      below 256.
    - The SSH session is a state-passing function [exec_command] on an
      abstract [World]; it either raises or completes with an exit status,
      the standard output and the standard error.
    - Everything a method does that can be observed is recorded, in the
      order the method performs or schedules it, as a list of [Event]s:
      the remote commands with their results, the transfers, and the calls
      on the user interface ([log_output], [progress_var.set], message
      boxes, widget states).  A callback handed to [root.after] is recorded
      where it is scheduled.
    - The callbacks scheduled in an [except Exception as e] block read [e]
      when Tk runs them.  Python unbinds [e] when the block ends, so a
      callback that Tk runs after that raises NameError and shows nothing.
      How many callbacks of the block Tk runs before it ends is decided by
      the scheduling of the two threads: it is an input, [in_time], of the
      methods that have such a block.
    - The form is not edited while a worker runs: the worker reads the Tk
      variables from the state it is started in.
    - A Python exception is the string [str(e)]. *)

From Stdlib Require Import String Ascii List ZArith Bool Lia.
From Stdlib Require Import Sorted.
Import ListNotations.
Open Scope list_scope.
Open Scope string_scope.

(** ** Text *)

Module Text.

Definition nl : string := String (ascii_of_nat 10) EmptyString.
Definition dquote : string := String (ascii_of_nat 34) EmptyString.
Definition newline : ascii := ascii_of_nat 10.
Definition pipe : ascii := ascii_of_nat 124.

(** Python truthiness of a string: [if s:]. *)
Definition truthy (s : string) : bool :=
  match s with EmptyString => false | String _ _ => true end.

(** [needle in hay]. *)
Fixpoint contains (needle hay : string) : bool :=
  if prefix needle hay then true
  else match hay with
       | EmptyString => false
       | String _ rest => contains needle rest
       end.

(** [s.startswith(p)]. *)
Fixpoint starts_with (p s : string) : bool :=
  match p with
  | EmptyString => true
  | String a p' =>
      match s with
      | EmptyString => false
      | String b s' => Ascii.eqb a b && starts_with p' s'
      end
  end.

(** [str.isspace] on one character (code points below 256). *)
Definition is_space (c : ascii) : bool :=
  let n := nat_of_ascii c in
  (((9 <=? n) && (n <=? 13)) || ((28 <=? n) && (n <=? 32))
   || (n =? 133) || (n =? 160))%nat.

Fixpoint lstrip (s : string) : string :=
  match s with
  | EmptyString => EmptyString
  | String c rest => if is_space c then lstrip rest else s
  end.

Fixpoint rstrip (s : string) : string :=
  match s with
  | EmptyString => EmptyString
  | String c rest =>
      match rstrip rest with
      | EmptyString => if is_space c then EmptyString else String c EmptyString
      | r => String c r
      end
  end.

(** [s.strip()]. *)
Definition strip (s : string) : string := rstrip (lstrip s).

(** Nothing but white space. *)
Fixpoint blank (s : string) : bool :=
  match s with
  | EmptyString => true
  | String c rest => is_space c && blank rest
  end.

(** [s.split(sep)] for a separator of one character: never empty. *)
Fixpoint split (sep : ascii) (s : string) : list string :=
  match s with
  | EmptyString => [EmptyString]
  | String c rest =>
      if Ascii.eqb c sep then EmptyString :: split sep rest
      else match split sep rest with
           | h :: t => String c h :: t
           | [] => [String c EmptyString]
           end
  end.

(** [s.split(sep)[0]]. *)
Definition first_field (sep : ascii) (s : string) : string :=
  match split sep s with
  | h :: _ => h
  | [] => EmptyString
  end.

(** Number of occurrences of a character. *)
Fixpoint count (c : ascii) (s : string) : nat :=
  match s with
  | EmptyString => 0
  | String d rest => (if Ascii.eqb d c then 1 else 0) + count c rest
  end.

(** ["=" * n]. *)
Fixpoint repeat_string (s : string) (n : nat) : string :=
  match n with
  | O => EmptyString
  | S k => s ++ repeat_string s k
  end.

(** [os.path.join(a, b)] on POSIX for a relative [b]. *)
Fixpoint ends_with_slash (s : string) : bool :=
  match s with
  | EmptyString => false
  | String c EmptyString => Ascii.eqb c "/"%char
  | String _ rest => ends_with_slash rest
  end.

Definition path_join (a b : string) : string :=
  match a with
  | EmptyString => b
  | _ => if ends_with_slash a then a ++ b else a ++ "/" ++ b
  end.

End Text.

Import Text.

(** ** The container runtime, as far as the program looks at it *)

Module Docker.

(** One entry of a container's [.Mounts]. *)
Record Mount := mkMount {
  Type_ : string;
  Source : string;
  Destination : string
}.

(** The part of Go's template language the program writes. *)
Inductive MountAction :=
| ASource
| AIfDestinationEq (dest : string) (body : MountAction).

Inductive Template :=
| TJsonMounts
| TRangeMounts (body : MountAction).

Fixpoint show_action (a : MountAction) : string :=
  match a with
  | ASource => "{{.Source}}"
  | AIfDestinationEq d body =>
      "{{if eq .Destination " ++ dquote ++ d ++ dquote ++ "}}"
      ++ show_action body ++ "{{end}}"
  end.

Definition show (t : Template) : string :=
  match t with
  | TJsonMounts => "{{json .Mounts}}"
  | TRangeMounts body => "{{range .Mounts}}" ++ show_action body ++ "{{end}}"
  end.

Fixpoint eval_action (a : MountAction) (m : Mount) : string :=
  match a with
  | ASource => Source m
  | AIfDestinationEq d body =>
      if String.eqb (Destination m) d then eval_action body m else EmptyString
  end.

(** JSON string escaping as Go's encoder does it without HTML escaping. *)
Definition hex_digit (n : nat) : ascii :=
  if (n <? 10)%nat then ascii_of_nat (48 + n) else ascii_of_nat (87 + n).

Definition escape_char (c : ascii) : string :=
  let n := nat_of_ascii c in
  if (n =? 34)%nat then String "\"%char dquote
  else if (n =? 92)%nat then "\\"
  else if (n =? 10)%nat then "\n"
  else if (n =? 13)%nat then "\r"
  else if (n =? 9)%nat then "\t"
  else if (n <? 32)%nat then
    "\u00" ++ String (hex_digit (n / 16)) (String (hex_digit (n mod 16)) EmptyString)
  else String c EmptyString.

Fixpoint escape (s : string) : string :=
  match s with
  | EmptyString => EmptyString
  | String c rest => escape_char c ++ escape rest
  end.

Definition json_string (s : string) : string := dquote ++ escape s ++ dquote.

Definition json_field (key value : string) : string :=
  json_string key ++ ":" ++ json_string value.

Definition json_mount (m : Mount) : string :=
  "{" ++ json_field "Type" (Type_ m)
  ++ "," ++ json_field "Source" (Source m)
  ++ "," ++ json_field "Destination" (Destination m) ++ "}".

Definition json_mounts (ms : list Mount) : string :=
  "[" ++ String.concat "," (map json_mount ms) ++ "]".

Definition eval (t : Template) (ms : list Mount) : string :=
  match t with
  | TJsonMounts => json_mounts ms
  | TRangeMounts body => String.concat EmptyString (map (eval_action body) ms)
  end.

(** What [docker inspect NAME --format T] prints for a container whose
    mount table is [ms]: the rendered template and a newline. *)
Definition inspect_output (ms : list Mount) (t : Template) : string :=
  eval t ms ++ nl.

Definition inspect_command (container_name : string) (t : Template) : string :=
  "docker inspect " ++ container_name ++ " --format '" ++ show t ++ "'".

(** The three templates of [_get_volume_path]. *)
Definition mounts_json : Template := TJsonMounts.
Definition data_source : Template :=
  TRangeMounts (AIfDestinationEq "/data" ASource).
Definition all_sources : Template := TRangeMounts ASource.

Definition is_data (m : Mount) : bool := String.eqb (Destination m) "/data".

End Docker.

Import Docker.

(** ** Sessions, events and the application state *)

(** What [ssh_client.exec_command] followed by reading the channel gives:
    an exception, or the exit status with both output streams. *)
Inductive ExecResult :=
| Raised (message : string)
| Completed (exit_status : Z) (output error : string).

(** One entry of [containers]: the dictionary built by the scan. *)
Record Container := mkContainer {
  id : string;
  name : string;
  image : string;
  display : string
}.

Inductive Widget := refresh_btn | backup_btn | delete_btn.

Inductive Event :=
| Remote (command : string) (result : ExecResult)
| Transfer (remote_path local_path : string) (failure : option string)
| LogOutput (message : string)
| ProgressSet (value : Z)
| ShowWarning (title message : string)
| ShowError (title message : string)
| ShowInfo (title message : string)
| AskYesNo (title message : string) (answer : bool)
| Configure (widget : Widget) (state : string)
| UpdateContainerLists (containers : list Container)
| CallbackNameError (variable : string).

(** The fields of [HomeboxBackupGUI] that the modelled methods read or
    write.  [homebox_current] and [postgres_current] are what
    [Combobox.current()] returns. *)
Record App := mkApp {
  remote_backup_path : option string;
  homebox_container : option Container;
  postgres_container : option Container;
  containers_info : list Container;
  homebox_container_var : string;
  postgres_container_var : string;
  homebox_current : Z;
  postgres_current : Z;
  backup_other_var : bool;
  save_path_var : string
}.

Definition set_remote_backup_path (p : option string) (a : App) : App :=
  mkApp p (homebox_container a) (postgres_container a) (containers_info a)
        (homebox_container_var a) (postgres_container_var a)
        (homebox_current a) (postgres_current a)
        (backup_other_var a) (save_path_var a).

Definition set_selected (h p : option Container) (a : App) : App :=
  mkApp (remote_backup_path a) h p (containers_info a)
        (homebox_container_var a) (postgres_container_var a)
        (homebox_current a) (postgres_current a)
        (backup_other_var a) (save_path_var a).

(** [l[i]] with Python's negative indices; [None] stands for IndexError. *)
Definition py_index {A} (l : list A) (i : Z) : option A :=
  let n := Z.of_nat (length l) in
  if (0 <=? i)%Z then
    if (i <? n)%Z then nth_error l (Z.to_nat i) else None
  else if (- n <=? i)%Z then nth_error l (Z.to_nat (n + i)) else None.

(** ** The monad of the methods: state, events, exceptions *)

Module Run.

Section WithWorld.

Context {World : Type}.

Definition State : Type := World * App.

Record Outcome (A : Type) := mkOutcome {
  events : list Event;
  final : State;
  value : string + A
}.
Arguments mkOutcome {A}.
Arguments events {A}.
Arguments final {A}.
Arguments value {A}.

Definition M (A : Type) : Type := State -> Outcome A.

Definition ret {A} (x : A) : M A := fun s => mkOutcome [] s (inr x).

Definition raise {A} (message : string) : M A :=
  fun s => mkOutcome [] s (inl message).

Definition bind {A B} (c : M A) (k : A -> M B) : M B :=
  fun s =>
    let r := c s in
    match value r with
    | inl e => mkOutcome (events r) (final r) (inl e)
    | inr x =>
        let r' := k x (final r) in
        mkOutcome (events r ++ events r') (final r') (value r')
    end.

(** [try: c except Exception as e: handler(e)]. *)
Definition try_except {A} (c : M A) (handler : string -> M A) : M A :=
  fun s =>
    let r := c s in
    match value r with
    | inl e =>
        let r' := handler e (final r) in
        mkOutcome (events r ++ events r') (final r') (value r')
    | inr x => r
    end.

Definition emit (e : Event) : M unit := fun s => mkOutcome [e] s (inr tt).

Definition get_app : M App := fun s => mkOutcome [] s (inr (snd s)).

Definition modify_app (f : App -> App) : M unit :=
  fun s => mkOutcome [] (fst s, f (snd s)) (inr tt).

End WithWorld.

End Run.

Import Run.
Arguments mkOutcome {World A}.
Arguments events {World A}.
Arguments final {World A}.
Arguments value {World A}.

Declare Scope run_scope.
Delimit Scope run_scope with run.
Notation "x <- c ;; k" := (bind c (fun x => k))
  (at level 61, c at next level, right associativity) : run_scope.
Notation "c ;; k" := (bind c (fun _ => k))
  (at level 61, right associativity) : run_scope.
Open Scope run_scope.

(** ** The methods of [HomeboxBackupGUI] *)

Module Homebox.

(** The lines of the listing that become containers
    ([_do_scan_containers], the loop over [output.strip().split('\n')]). *)
Definition parse_line (line : string) : list Container :=
  if truthy line then
    match split pipe line with
    | [container_id; name; image] =>
        [mkContainer container_id name image (name ++ " (" ++ image ++ ")")]
    | _ => []
    end
  else [].

Definition listing_lines (output : string) : list string :=
  split newline (strip output).

Definition parse_containers (output : string) : list Container :=
  flat_map parse_line (listing_lines output).

Definition scan_command : string :=
  "docker ps --format '{{.ID}}|{{.Names}}|{{.Image}}'".

Definition py_bool (b : bool) : string := if b then "True" else "False".

(** A callback of an [except Exception as e] block that reads [e]: what Tk
    does when it runs it.  While [e] is bound the callback shows what it
    was written to show; once the block has ended [e] is unbound, the
    callback raises NameError, which Tk reports on the standard error, and
    nothing is shown. *)
Definition reads_e (bound : bool) (shown : Event) : Event :=
  if bound then shown else CallbackNameError "e".

Section Methods.

Context {World : Type}.
Variable exec_command : World -> string -> World * ExecResult.
Variable scp_get : World -> string -> string -> World * option string.

Local Abbreviation M := (@Run.M World).

(** [self.ssh_client.exec_command(command)] with the reads that follow. *)
Definition remote (command : string) : M ExecResult :=
  fun s =>
    let wr := exec_command (fst s) command in
    mkOutcome [Remote command (snd wr)] (fst wr, snd s) (inr (snd wr)).

(** [scp.get(remote_path, local_path)] on a fresh [SCPClient]. *)
Definition transfer (remote_path local_path : string) : M (option string) :=
  fun s =>
    let wr := scp_get (fst s) remote_path local_path in
    mkOutcome [Transfer remote_path local_path (snd wr)] (fst wr, snd s)
              (inr (snd wr)).

Definition _execute_command (command : string) : M string :=
  r <- remote command ;;
  match r with
  | Raised e => raise e
  | Completed exit_status output error =>
      if negb (exit_status =? 0)%Z
      then raise ("Command failed: " ++ command ++ nl ++ error)
      else ret output
  end.

Definition when (b : bool) (c : M unit) : M unit := if b then c else ret tt.

(** [in_time] is the number of callbacks of the handler that Tk runs
    before the handler ends. *)
Definition _do_scan_containers (in_time : nat) : M unit :=
  try_except
    (r <- remote scan_command ;;
     match r with
     | Raised e => raise e
     | Completed _ output error =>
         when (truthy error) (emit (LogOutput ("Warning: " ++ error))) ;;
         let containers := parse_containers output in
         match containers with
         | [] =>
             emit (ShowWarning "No Containers"
                               "No running Docker containers found") ;;
             emit (Configure refresh_btn "normal")
         | _ => emit (UpdateContainerLists containers)
         end
     end)
    (fun e =>
       emit (reads_e (1 <=? in_time)%nat
               (LogOutput ("Error scanning containers: " ++ e))) ;;
       emit (reads_e (2 <=? in_time)%nat
               (ShowError "Error" ("Failed to scan containers:" ++ nl ++ e))) ;;
       emit (Configure refresh_btn "normal")).

Definition _get_volume_path : M (option string) :=
  a <- get_app ;;
  match homebox_container a with
  | None => raise "'NoneType' object is not subscriptable"
  | Some c =>
      let container_name := name c in
      let fallback : M (option string) :=
        let command :=
          "docker inspect " ++ container_name
          ++ " --format '{{range .Mounts}}{{.Source}}{{end}}'" in
        out <- _execute_command command ;;
        let volume_path := first_field newline (strip out) in
        ret (if truthy volume_path then Some volume_path else None) in
      let command :=
        "docker inspect " ++ container_name ++ " --format '{{json .Mounts}}'" in
      output <- _execute_command command ;;
      if contains "/data" output then
        let command :=
          "docker inspect " ++ container_name
          ++ " --format '{{range .Mounts}}{{if eq .Destination "
          ++ dquote ++ "/data" ++ dquote ++ "}}{{.Source}}{{end}}{{end}}'" in
        out <- _execute_command command ;;
        let volume_path := strip out in
        if truthy volume_path then ret (Some volume_path) else fallback
      else fallback
  end.

Definition dump_command (container_name temp_dir : string) : string :=
  let db_name := "homebox" in
  let db_user := "homebox" in
  let dump_file := temp_dir ++ "/database/homebox_db.sql" in
  "docker exec " ++ container_name ++ " pg_dump -U " ++ db_user ++ " "
  ++ db_name ++ " > " ++ dump_file.

Definition _backup_database (temp_dir : string) : M unit :=
  a <- get_app ;;
  match postgres_container a with
  | None => raise "'NoneType' object is not subscriptable"
  | Some c =>
      _execute_command (dump_command (name c) temp_dir) ;;
      emit (LogOutput "Database backup completed")
  end.

Definition media_check_command (volume_path : string) : string :=
  let media_src := volume_path ++ "/attachments" in
  "[ -d " ++ media_src ++ " ] && echo 'exists' || echo 'notfound'".

Definition media_copy_command (volume_path temp_dir : string) : string :=
  let media_src := volume_path ++ "/attachments" in
  let media_dst := temp_dir ++ "/media/" in
  "cp -r " ++ media_src ++ "/* " ++ media_dst ++ " 2>/dev/null || true".

Definition _backup_media (volume_path temp_dir : string) : M unit :=
  out <- _execute_command (media_check_command volume_path) ;;
  let result := strip out in
  if String.eqb result "exists" then
    _execute_command (media_copy_command volume_path temp_dir) ;;
    emit (LogOutput "Media files backup completed")
  else emit (LogOutput "No media directory found, skipping...").

Definition list_command (volume_path : string) : string :=
  "ls -1 " ++ volume_path.

Definition other_copy_command (volume_path temp_dir dir_name : string)
  : string :=
  let other_dst := temp_dir ++ "/other-files/" in
  let src := volume_path ++ "/" ++ dir_name in
  "cp -r " ++ src ++ " " ++ other_dst ++ " 2>/dev/null || true".

(** The [for dir_name in dirs] loop of [_backup_other_files]. *)
Fixpoint copy_entries (volume_path temp_dir : string) (dirs : list string)
  : M unit :=
  match dirs with
  | [] => ret tt
  | dir_name :: rest =>
      (if truthy dir_name && negb (String.eqb dir_name "attachments")
       then _execute_command
              (other_copy_command volume_path temp_dir dir_name) ;; ret tt
       else ret tt) ;;
      copy_entries volume_path temp_dir rest
  end.

Definition _backup_other_files (volume_path temp_dir : string) : M unit :=
  out <- _execute_command (list_command volume_path) ;;
  let dirs := split newline (strip out) in
  copy_entries volume_path temp_dir dirs ;;
  emit (LogOutput "Other files backup completed").

Definition _download_backup (remote_path local_path : string) : M unit :=
  r <- transfer remote_path local_path ;;
  match r with
  | None => emit (LogOutput ("Downloaded to: " ++ local_path))
  | Some e => raise ("Download failed: " ++ e)
  end.

Definition workspace_command (temp_dir : string) : string :=
  "mkdir -p " ++ temp_dir ++ "/database " ++ temp_dir ++ "/media".

Definition other_dir_command (temp_dir : string) : string :=
  "mkdir -p " ++ temp_dir ++ "/other-files".

Definition archive_command (backup_name : string) : string :=
  "cd /tmp && tar -czf " ++ backup_name ++ ".tar.gz " ++ backup_name.

Definition cleanup_command (temp_dir : string) : string :=
  "rm -rf " ++ temp_dir.

(** The [try] block of [_do_backup]; [timestamp] is what
    [datetime.now().strftime("%Y%m%d_%H%M%S")] gives. *)
Definition backup_steps (timestamp : string) : M unit :=
  emit (LogOutput "Step 1: Finding data volume...") ;;
  emit (ProgressSet 5) ;;
  found <- _get_volume_path ;;
  match found with
  | None => raise "Could not determine data volume path"
  | Some volume_path =>
  if negb (truthy volume_path)
  then raise "Could not determine data volume path"
  else
  emit (LogOutput ("Data volume path: " ++ volume_path)) ;;
  emit (LogOutput "Step 2: Creating temporary backup directory...") ;;
  emit (ProgressSet 10) ;;
  let backup_name := "homebox_backup_" ++ timestamp in
  let temp_dir := "/tmp/" ++ backup_name in
  _execute_command (workspace_command temp_dir) ;;
  a <- get_app ;;
  (if backup_other_var a
   then _execute_command (other_dir_command temp_dir) ;; ret tt
   else ret tt) ;;
  emit (LogOutput "Step 3: Backing up PostgreSQL database...") ;;
  emit (ProgressSet 20) ;;
  _backup_database temp_dir ;;
  emit (LogOutput "Step 4: Backing up media files...") ;;
  emit (ProgressSet 40) ;;
  _backup_media volume_path temp_dir ;;
  a <- get_app ;;
  (if backup_other_var a then
     emit (LogOutput "Step 5: Backing up other data volume files...") ;;
     emit (ProgressSet 60) ;;
     _backup_other_files volume_path temp_dir
   else emit (ProgressSet 60)) ;;
  emit (LogOutput "Step 6: Creating archive...") ;;
  emit (ProgressSet 70) ;;
  let archive_path := "/tmp/" ++ backup_name ++ ".tar.gz" in
  _execute_command (archive_command backup_name) ;;
  _execute_command (cleanup_command temp_dir) ;;
  modify_app (set_remote_backup_path (Some archive_path)) ;;
  emit (LogOutput "Step 7: Downloading backup...") ;;
  emit (ProgressSet 75) ;;
  a <- get_app ;;
  let local_path := path_join (save_path_var a) (backup_name ++ ".tar.gz") in
  _download_backup archive_path local_path ;;
  emit (ProgressSet 100) ;;
  emit (LogOutput "Backup completed successfully!") ;;
  emit (LogOutput ("Saved to: " ++ local_path)) ;;
  emit (ShowInfo "Success"
          ("Backup completed!" ++ nl ++ nl ++ "Saved to:" ++ nl ++ local_path)) ;;
  emit (Configure delete_btn "normal") ;;
  emit (Configure backup_btn "normal")
  end.

(** [_do_backup]; [in_time] is the number of callbacks of the handler
    that Tk runs before the handler ends. *)
Definition _do_backup (in_time : nat) (timestamp : string) : M unit :=
  try_except (backup_steps timestamp)
    (fun e =>
       emit (reads_e (1 <=? in_time)%nat (LogOutput ("ERROR: " ++ e))) ;;
       emit (reads_e (2 <=? in_time)%nat
               (ShowError "Backup Failed" ("Backup failed:" ++ nl ++ e))) ;;
       emit (Configure backup_btn "normal")).

(** [start_backup] up to [thread.start()]: returns whether the worker was
    started. *)
Definition start_backup : M bool :=
  a <- get_app ;;
  if negb (truthy (homebox_container_var a))
     || negb (truthy (postgres_container_var a))
  then emit (ShowError "Error" "Please select both containers") ;; ret false
  else
    let homebox_idx := homebox_current a in
    let postgres_idx := postgres_current a in
    match py_index (containers_info a) homebox_idx with
    | None => raise "list index out of range"
    | Some h =>
        modify_app (fun a => set_selected (Some h) (postgres_container a) a) ;;
        match py_index (containers_info a) postgres_idx with
        | None => raise "list index out of range"
        | Some p =>
            modify_app (fun a => set_selected (homebox_container a) (Some p) a) ;;
            emit (LogOutput (repeat_string "=" 50)) ;;
            emit (LogOutput "Starting backup process...") ;;
            emit (LogOutput ("Homebox container: " ++ name h)) ;;
            emit (LogOutput ("PostgreSQL container: " ++ name p)) ;;
            emit (LogOutput ("Include other files: "
                             ++ py_bool (backup_other_var a))) ;;
            emit (Configure backup_btn "disabled") ;;
            emit (ProgressSet 0) ;;
            ret true
        end
    end.

(** A press of the backup button followed by the worker it starts. *)
Definition backup_run (in_time : nat) (timestamp : string) : M unit :=
  started <- start_backup ;;
  if started then _do_backup in_time timestamp else ret tt.

(** [delete_server_backup]; [response] is the answer given to the
    confirmation box when it is shown. *)
Definition delete_server_backup (response : bool) : M unit :=
  a <- get_app ;;
  let nothing :=
    emit (ShowWarning "No Backup" "No server-side backup to delete") in
  match remote_backup_path a with
  | None => nothing
  | Some path =>
      if negb (truthy path) then nothing
      else
        emit (AskYesNo "Confirm Delete"
                ("Delete the backup archive from the server?" ++ nl ++ nl
                 ++ path) response) ;;
        if negb response then ret tt
        else
          try_except
            (emit (LogOutput ("Deleting server backup: " ++ path)) ;;
             _execute_command ("rm -f " ++ path) ;;
             emit (LogOutput "Server backup deleted successfully") ;;
             modify_app (set_remote_backup_path None) ;;
             emit (Configure delete_btn "disabled") ;;
             emit (ShowInfo "Success" "Server backup deleted successfully"))
            (fun e =>
               emit (LogOutput ("Error deleting server backup: " ++ e)) ;;
               emit (ShowError "Error"
                       ("Failed to delete server backup:" ++ nl ++ e)))
  end.

End Methods.

End Homebox.

Import Homebox.

(** ** Concrete hosts, to run the methods on *)

Module Hosts.

(** A host that answers by the text of the command, and [default]
    otherwise; it keeps no state. *)
Definition Script := list (string * ExecResult).

Definition answer (script : Script) (default : ExecResult) (command : string)
  : ExecResult :=
  match find (fun p => String.eqb (fst p) command) script with
  | Some p => snd p
  | None => default
  end.

Definition scripted (script : Script) (default : ExecResult)
  : unit -> string -> unit * ExecResult :=
  fun _ command => (tt, answer script default command).

Definition not_found : ExecResult :=
  Completed 127 EmptyString "sh: command not found".

Definition ok : ExecResult := Completed 0 EmptyString EmptyString.

(** A host running one container [container_name] with mount table [ms];
    every other command succeeds silently. *)
Definition inspect_script (container_name : string) (ms : list Mount)
  : Script :=
  map (fun t => (inspect_command container_name t,
                 Completed 0 (inspect_output ms t) EmptyString))
      [mounts_json; data_source; all_sources].

Definition docker_host (container_name : string) (ms : list Mount)
  : unit -> string -> unit * ExecResult :=
  scripted (inspect_script container_name ms) ok.

(** Mount tables of containers as [docker inspect] reports them. *)
Definition config_mount : Mount :=
  mkMount "bind" "/srv/homebox/config" "/config".
Definition cache_mount : Mount :=
  mkMount "bind" "/srv/homebox/cache" "/cache".
Definition data_volume : Mount :=
  mkMount "volume" "/var/lib/docker/volumes/homebox/_data" "/data".
Definition data_tmpfs : Mount := mkMount "tmpfs" EmptyString "/data".

(** A host on which the listing exits with [code]. *)
Definition listing_host (code : Z) (output error : string)
  : unit -> string -> unit * ExecResult :=
  scripted [("docker ps --format '{{.ID}}|{{.Names}}|{{.Image}}'",
             Completed code output error)] ok.

(** A host on which every command succeeds, the media check finds the
    attachments, and the copy is answered by [copy]. *)
Definition media_host (check_output : string) (copy : ExecResult)
  : unit -> string -> unit * ExecResult :=
  fun _ command =>
    (tt,
     if starts_with "docker inspect " command
     then Completed 0 ("/srv/homebox/data" ++ nl) EmptyString
     else if starts_with "[ -d " command
     then Completed 0 check_output EmptyString
     else if starts_with "cp -r " command then copy
     else ok).

(** A host on which the database dump exits with status 1. *)
Definition dump_failing_host (error : string)
  : unit -> string -> unit * ExecResult :=
  fun _ command =>
    (tt,
     if starts_with "docker inspect " command
     then Completed 0 ("/srv/homebox/data" ++ nl) EmptyString
     else if starts_with "docker exec " command
     then Completed 1 EmptyString error
     else ok).

Definition scp_ok : unit -> string -> string -> unit * option string :=
  fun _ _ _ => (tt, None).

Definition app0 : App :=
  mkApp None None None [] EmptyString EmptyString (-1) (-1) false
        "/home/user/Downloads".

Definition homebox_c : Container :=
  mkContainer "3f2a9c1d7b10" "homebox" "ghcr.io/sysadminsmedia/homebox:latest"
              "homebox (ghcr.io/sysadminsmedia/homebox:latest)".

Definition postgres_c : Container :=
  mkContainer "9a8b7c6d5e4f" "homebox-db" "postgres:16"
              "homebox-db (postgres:16)".

(** The application after a scan that found the two containers and
    selected them. *)
Definition app_ready (other : bool) (kept : option string) : App :=
  mkApp kept None None [homebox_c; postgres_c]
        (display homebox_c) (display postgres_c) 0 1 other
        "/home/user/Downloads".

Definition app_selected (other : bool) (kept : option string) : App :=
  set_selected (Some homebox_c) (Some postgres_c) (app_ready other kept).

End Hosts.

(** ** Vocabulary of the statements *)

Module Observe.

(** The host answers the three inspections of [_get_volume_path] for the
    container [container_name] from the mount table [ms], in every state. *)
Definition answers_inspect {World : Type}
  (exec_command : World -> string -> World * ExecResult)
  (container_name : string) (ms : list Mount) : Prop :=
  forall (w : World) (t : Template),
    In t [mounts_json; data_source; all_sources] ->
    snd (exec_command w (inspect_command container_name t))
    = Completed 0 (inspect_output ms t) EmptyString.

(** The remote shell gives exit status 0 to every command line that ends
    in [|| true]. *)
Definition or_true_succeeds {World : Type}
  (exec_command : World -> string -> World * ExecResult) : Prop :=
  forall (w : World) (c : string),
  exists output error,
    snd (exec_command w (c ++ " || true")) = Completed 0 output error.

(** What the fallback query of [_get_volume_path] yields on the mount
    table [ms]. *)
Definition fallback_value (ms : list Mount) : option string :=
  let volume_path :=
    first_field newline
      (strip (String.concat EmptyString (map Source ms))) in
  if truthy volume_path then Some volume_path else None.

(** The values handed to [progress_var.set], in order. *)
Fixpoint progress_values (evs : list Event) : list Z :=
  match evs with
  | [] => []
  | ProgressSet v :: rest => v :: progress_values rest
  | _ :: rest => progress_values rest
  end.

(** The remote commands issued, in order. *)
Fixpoint commands (evs : list Event) : list string :=
  match evs with
  | [] => []
  | Remote c _ :: rest => c :: commands rest
  | _ :: rest => commands rest
  end.

Definition is_transfer (e : Event) : bool :=
  match e with Transfer _ _ _ => true | _ => false end.

Definition is_remote (e : Event) : bool :=
  match e with Remote _ _ => true | _ => false end.

(** What the handler of [_do_backup] brings about for the exception
    [message] when Tk runs [in_time] of its callbacks before it ends: the
    line in the log, the error box, and the backup button enabled again. *)
Definition handler_shows (in_time : nat) (message : string) : list Event :=
  (match in_time with
   | O => [CallbackNameError "e"; CallbackNameError "e"]
   | S O => [LogOutput ("ERROR: " ++ message); CallbackNameError "e"]
   | S (S _) => [LogOutput ("ERROR: " ++ message);
                 ShowError "Backup Failed"
                           ("Backup failed:" ++ nl ++ message)]
   end ++ [Configure backup_btn "normal"])%list.

(** The run ended in the handler of [_do_backup], which caught the
    exception [message]. *)
Definition failed_with (in_time : nat) (message : string)
           (evs : list Event) : Prop :=
  exists before, evs = (before ++ handler_shows in_time message)%list.

(** The failure [message] is on the screen: in the log and in the error
    box. *)
Definition surfaced (message : string) (evs : list Event) : Prop :=
  In (LogOutput ("ERROR: " ++ message)) evs
  /\ In (ShowError "Backup Failed" ("Backup failed:" ++ nl ++ message)) evs.

(** What only an exception handler shows: an error box, or a line of the
    log that starts with [ERROR: ]. *)
Definition handler_message (e : Event) : bool :=
  match e with
  | ShowError _ _ => true
  | LogOutput m => starts_with "ERROR: " m
  | _ => false
  end.

(** No failure is on the screen. *)
Definition nothing_surfaced (evs : list Event) : Prop :=
  Forall (fun e => handler_message e = false) evs.

(** The run went through every stage. *)
Definition succeeded (evs : list Event) : Prop :=
  In (LogOutput "Backup completed successfully!") evs.

(** The event is a remote command whose text starts with [p]. *)
Definition is_remote_with (p : string) (e : Event) : bool :=
  match e with Remote c _ => starts_with p c | _ => false end.

(** Every event is a remote command whose text starts with [p]. *)
Definition only_remote (p : string) (evs : list Event) : Prop :=
  Forall (fun e => is_remote_with p e = true) evs.

(** The handler of [_do_backup] reported a failure. *)
Definition failed (evs : list Event) : Prop :=
  exists message,
    In (ShowError "Backup Failed" ("Backup failed:" ++ nl ++ message)) evs.

(** The events of the stages after the database dump: the media check
    and copies, the listing of the volume, the archive, the removal of the
    workspace and the download. *)
Definition later_stage (e : Event) : bool :=
  is_transfer e
  || is_remote_with "[ -d " e || is_remote_with "cp -r " e
  || is_remote_with "ls -1 " e || is_remote_with "cd /tmp && tar " e
  || is_remote_with "rm -rf " e.

(** The commands of the pipeline without its optional stage, for the run
    started at [timestamp]. *)
Definition pipeline_command (timestamp command : string) : Prop :=
  let backup_name := "homebox_backup_" ++ timestamp in
  let temp_dir := "/tmp/" ++ backup_name in
  starts_with "docker inspect " command = true
  \/ command = Homebox.workspace_command temp_dir
  \/ (exists pg, command = Homebox.dump_command pg temp_dir)
  \/ (exists v, command = Homebox.media_check_command v)
  \/ (exists v, command = Homebox.media_copy_command v temp_dir)
  \/ command = Homebox.archive_command backup_name
  \/ command = Homebox.cleanup_command temp_dir.

(** A command of a run that leaves the other files out: one of the
    pipeline's, no listing of the volume, no directory for other files. *)
Definition plain_command (timestamp command : string) : Prop :=
  pipeline_command timestamp command
  /\ starts_with "ls -1 " command = false
  /\ command
     <> Homebox.other_dir_command ("/tmp/" ++ "homebox_backup_" ++ timestamp).

(** The scan ended in its exception handler. *)
Definition scan_failed (evs : list Event) : Prop :=
  exists e,
    In (ShowError "Error" ("Failed to scan containers:" ++ nl ++ e)) evs.

(** Weakest precondition of a method for a postcondition on the events it
    produces, the state it leaves and what it returns or raises. *)
Definition wp {World A : Type} (c : @Run.M World A)
  (Q : list Event -> World * App -> string + A -> Prop)
  (s : World * App) : Prop :=
  Q (events (c s)) (final (c s)) (value (c s)).

End Observe.

Import Observe.

(** ** Listings, as [docker ps] prints them *)

Module Listing.

(** [sep.join(fields)]. *)
Definition join (sep : ascii) (fields : list string) : string :=
  String.concat (String sep EmptyString) fields.

(** The line of [docker ps --format '{{.ID}}|{{.Names}}|{{.Image}}'] for
    one container. *)
Definition listing_line (c : Container) : string :=
  id c ++ "|" ++ name c ++ "|" ++ image c.

Definition render_listing (cs : list Container) : string :=
  join newline (map listing_line cs) ++ nl.

(** A field of a listing: no pipe and no newline in it. *)
Definition plain_field (s : string) : bool :=
  Nat.eqb (count pipe s) 0 && Nat.eqb (count newline s) 0.

(** A container as the scan builds it, from plain fields. *)
Definition listed (c : Container) : bool :=
  plain_field (id c) && plain_field (name c) && plain_field (image c)
  && String.eqb (display c) (name c ++ " (" ++ image c ++ ")").

End Listing.

Import Listing.

(** ** The automatic selection of [_update_container_lists] *)

Module Selection.

(** [str.lower] on one character (code points below 256). *)
Definition lower_char (c : ascii) : ascii :=
  let n := nat_of_ascii c in
  if (((65 <=? n) && (n <=? 90))
      || ((192 <=? n) && (n <=? 222) && negb (n =? 215)))%nat
  then ascii_of_nat (n + 32) else c.

(** [s.lower()]. *)
Fixpoint lower (s : string) : string :=
  match s with
  | EmptyString => EmptyString
  | String c rest => String (lower_char c) (lower rest)
  end.

(** [needle in c['name'].lower() or needle in c['image'].lower()]. *)
Definition mentions (needle : string) (c : Container) : bool :=
  contains needle (lower (name c)) || contains needle (lower (image c)).

(** The loop [for i, c in enumerate(containers)] from index [i] on:
    where it breaks, if it does. *)
Fixpoint first_mention (needle : string) (i : nat)
         (containers : list Container) : option nat :=
  match containers with
  | [] => None
  | c :: rest =>
      if mentions needle c then Some i else first_mention needle (S i) rest
  end.

(** The index that the [for ... else] gives to [Combobox.current]. *)
Definition auto_select (needle : string) (containers : list Container)
  : nat :=
  match first_mention needle 0 containers with
  | Some i => i
  | None => 0
  end.

(** What [_update_container_lists] does to the fields: it stores the
    containers and, when there are any, selects one in each box, where
    [Combobox.current(i)] makes [values[i]] the text of the box.  The
    method also logs the number of containers and enables the refresh
    button, the check box of the other files and the backup button. *)
Definition _update_container_lists (containers : list Container) (a : App)
  : App :=
  let container_displays := map display containers in
  match container_displays with
  | [] =>
      mkApp (remote_backup_path a) (homebox_container a)
            (postgres_container a) containers
            (homebox_container_var a) (postgres_container_var a)
            (homebox_current a) (postgres_current a)
            (backup_other_var a) (save_path_var a)
  | _ =>
      let i := auto_select "homebox" containers in
      let j := auto_select "postgres" containers in
      mkApp (remote_backup_path a) (homebox_container a)
            (postgres_container a) containers
            (nth i container_displays EmptyString)
            (nth j container_displays EmptyString)
            (Z.of_nat i) (Z.of_nat j)
            (backup_other_var a) (save_path_var a)
  end.

End Selection.

Import Selection.

(** ** More vocabulary, and more hosts *)

Module Traces.

(** The entries of the volume that [_backup_other_files] copies. *)
Definition copied_entry (dir_name : string) : bool :=
  truthy dir_name && negb (String.eqb dir_name "attachments").

(** The run ends with the event [e]. *)
Definition ends_with (e : Event) (evs : list Event) : Prop :=
  exists before, evs = (before ++ [e])%list.

(** Texts that start alike. *)
Definition same_head (a b : string) : bool :=
  match a, b with
  | EmptyString, EmptyString => true
  | String x _, String y _ => Ascii.eqb x y
  | _, _ => false
  end.

(** Events of the same kind: the same call, on texts that start alike. *)
Definition same_kind (a b : Event) : bool :=
  match a, b with
  | Remote c _, Remote c' _ => same_head c c'
  | Transfer _ _ _, Transfer _ _ _ => true
  | LogOutput m, LogOutput m' => same_head m m'
  | ProgressSet _, ProgressSet _ => true
  | ShowWarning _ _, ShowWarning _ _ => true
  | ShowError _ _, ShowError _ _ => true
  | ShowInfo _ _, ShowInfo _ _ => true
  | AskYesNo _ _ _, AskYesNo _ _ _ => true
  | Configure _ _, Configure _ _ => true
  | UpdateContainerLists _, UpdateContainerLists _ => true
  | CallbackNameError _, CallbackNameError _ => true
  | _, _ => false
  end.

(** The elements of a list that a list of booleans marks. *)
Fixpoint pick {A} (marks : list bool) (l : list A) : list A :=
  match marks, l with
  | true :: marks, x :: l => x :: pick marks l
  | false :: marks, _ :: l => pick marks l
  | _, _ => []
  end.

(** A command or a transfer that failed. *)
Definition failing (e : Event) : bool :=
  match e with
  | Remote _ (Raised _) => true
  | Remote _ (Completed exit_status _ _) => negb (exit_status =? 0)%Z
  | Transfer _ _ (Some _) => true
  | _ => false
  end.

(** The events that reach the server: commands and transfers. *)
Definition is_io (e : Event) : bool := is_remote e || is_transfer e.

Definition all_ok (evs : list Event) : bool :=
  forallb (fun e => negb (failing e)) evs.

(** Nothing is sent to the server after a command or a transfer that
    failed. *)
Definition aborts_at_failure (evs : list Event) : Prop :=
  forall before e after,
    evs = (before ++ e :: after)%list ->
    failing e = true ->
    Forall (fun x => is_io x = false) after.

(** Nothing failed, or the last event did. *)
Definition stops_at_failure (evs : list Event) : Prop :=
  all_ok evs = true
  \/ exists before e,
      evs = (before ++ [e])%list /\ all_ok before = true /\ failing e = true.

(** A method that stops at the first failure, and returns normally only
    when nothing failed. *)
Definition orderly {World A : Type} (c : @Run.M World A) : Prop :=
  forall s,
    stops_at_failure (events (c s))
    /\ (forall x, value (c s) = inr x -> all_ok (events (c s)) = true).

(** A method that changes no field but the archive path. *)
Definition keeps_fields {World A : Type} (c : @Run.M World A) : Prop :=
  forall s,
    exists p, snd (final (c s)) = set_remote_backup_path p (snd s).

(** The command completed with exit status 0 in the run. *)
Definition completed (command : string) (evs : list Event) : Prop :=
  exists output error, In (Remote command (Completed 0 output error)) evs.

(** The run made the archive and removed the workspace. *)
Definition archived (backup_name : string) (evs : list Event) : Prop :=
  completed (archive_command backup_name) evs
  /\ completed (cleanup_command ("/tmp/" ++ backup_name)) evs.

(** The volume path the worker goes on with: the one the lookup returned,
    when it returned one that is not empty. *)
Definition usable (found : string + option string) : option string :=
  match found with
  | inr (Some volume_path) =>
      if truthy volume_path then Some volume_path else None
  | _ => None
  end.

(** The commands of the fixed pipeline that follow the lookup, for the run
    started at [timestamp]: none without a volume; the creation of the
    workspace; then, for the selected database container, the dump, the
    media check, the media copy when the attachments exist ([media]), the
    archive and the removal of the workspace. *)
Definition fixed_pipeline (timestamp : string) (volume : option string)
           (pg : option Container) (media : bool) : list string :=
  let backup_name := "homebox_backup_" ++ timestamp in
  let temp_dir := "/tmp/" ++ backup_name in
  match volume with
  | None => []
  | Some volume_path =>
      workspace_command temp_dir
      :: match pg with
         | None => []
         | Some c =>
             [dump_command (name c) temp_dir;
              media_check_command volume_path]
             ++ (if media then [media_copy_command volume_path temp_dir]
                 else [])
             ++ [archive_command backup_name; cleanup_command temp_dir]
         end
  end.

(** An event of a run and the event at the same place of the run in which
    every callback came in time: the same event, or the NameError of a
    callback that was to show a message of a handler. *)
Definition late_of (x y : Event) : Prop :=
  x = y \/ (x = CallbackNameError "e" /\ handler_message y = true).

(** An event that the steps of a method produce: no message of a handler
    and no callback that came too late. *)
Definition of_steps (e : Event) : bool :=
  negb (handler_message e)
  && match e with CallbackNameError _ => false | _ => true end.

(** A method all of whose events are [of_steps]. *)
Definition steps_only {World A : Type} (c : @Run.M World A) : Prop :=
  forall s, Forall (fun e => of_steps e = true) (events (c s)).

(** A host whose volume holds the attachments, a configuration file and
    a directory of thumbnails. *)
Definition volume_host : unit -> string -> unit * ExecResult :=
  fun _ command =>
    (tt,
     if starts_with "docker inspect " command
     then Completed 0 ("/srv/homebox/data" ++ nl) EmptyString
     else if starts_with "[ -d " command
     then Completed 0 ("exists" ++ nl) EmptyString
     else if starts_with "ls -1 " command
     then Completed 0 ("attachments" ++ nl ++ "config.yml" ++ nl
                       ++ "thumbnails" ++ nl) EmptyString
     else Hosts.ok).

(** A transfer that fails. *)
Definition scp_failing (message : string)
  : unit -> string -> string -> unit * option string :=
  fun _ _ _ => (tt, Some message).

End Traces.

Import Traces.

(** * Properties *)

(** ** Facts about text *)

Module TextFacts.

Lemma append_nil_r (s : string) : s ++ EmptyString = s.
Proof. induction s as [|c s IH]; simpl; congruence. Qed.

Lemma append_assoc (a b c : string) : (a ++ b) ++ c = a ++ (b ++ c).
Proof. induction a as [|x a IH]; simpl; congruence. Qed.

Lemma append_inv_head (a b c : string) : a ++ b = a ++ c -> b = c.
Proof. induction a as [|x a IH]; simpl; intros H; [exact H|]. inversion H; auto. Qed.

Lemma prefix_refl_app (p t : string) : prefix p (p ++ t) = true.
Proof.
  induction p as [|c p IH]; simpl.
  - destruct t; reflexivity.
  - destruct (ascii_dec c c) as [_|n]; [exact IH | contradiction].
Qed.

Lemma prefix_app_l (p s t : string) :
  prefix p s = true -> prefix p (s ++ t) = true.
Proof.
  revert p. induction s as [|c s IH]; intros p H.
  - destruct p; [destruct t; reflexivity | discriminate].
  - destruct p as [|d p]; [reflexivity|]. simpl in *.
    destruct (ascii_dec d c); [auto | discriminate].
Qed.

Lemma contains_cons (p : string) (c : ascii) (s : string) :
  contains p (String c s)
  = if prefix p (String c s) then true else contains p s.
Proof. reflexivity. Qed.

Lemma contains_nil (p : string) :
  contains p EmptyString = prefix p EmptyString.
Proof. destruct p; reflexivity. Qed.

Lemma contains_app_l (p s t : string) :
  contains p s = true -> contains p (s ++ t) = true.
Proof.
  induction s as [|c s IH]; intros H.
  - rewrite contains_nil in H. destruct p; [|discriminate].
    destruct t; reflexivity.
  - change (String c s ++ t) with (String c (s ++ t)).
    rewrite contains_cons in *.
    destruct (prefix p (String c s)) eqn:E.
    + change (String c (s ++ t)) with (String c s ++ t).
      rewrite (prefix_app_l _ _ t E). reflexivity.
    + destruct (prefix p (String c (s ++ t))); auto.
Qed.

Lemma contains_app_r (p s t : string) :
  contains p t = true -> contains p (s ++ t) = true.
Proof.
  induction s as [|c s IH]; intros H; [exact H|].
  change (String c s ++ t) with (String c (s ++ t)).
  rewrite contains_cons.
  destruct (prefix p (String c (s ++ t))); auto.
Qed.

Lemma rstrip_app_nl (s : string) : rstrip (s ++ nl) = rstrip s.
Proof.
  induction s as [|c s IH]; [reflexivity|].
  simpl. change (String (ascii_of_nat 10) EmptyString) with nl.
  rewrite IH. reflexivity.
Qed.

Lemma lstrip_app_nl (s : string) :
  lstrip (s ++ nl) = lstrip s ++ nl
  \/ (lstrip s = EmptyString /\ lstrip (s ++ nl) = EmptyString).
Proof.
  induction s as [|c s IH]; [right; split; reflexivity|].
  simpl. destruct (is_space c); [exact IH | left; reflexivity].
Qed.

(** The newline a command prints after its output disappears in
    [strip]. *)
Lemma strip_app_nl (s : string) : strip (s ++ nl) = strip s.
Proof.
  unfold strip. destruct (lstrip_app_nl s) as [E|[E1 E2]].
  - rewrite E. apply rstrip_app_nl.
  - rewrite E1, E2. reflexivity.
Qed.

Lemma concat_empty_cons (x : string) (xs : list string) :
  String.concat EmptyString (x :: xs) = x ++ String.concat EmptyString xs.
Proof.
  destruct xs as [|y ys]; simpl; [symmetry; apply append_nil_r | reflexivity].
Qed.

Lemma split_not_nil (sep : ascii) (s : string) : split sep s <> [].
Proof.
  induction s as [|c s IH]; simpl; [discriminate|].
  destruct (Ascii.eqb c sep); [discriminate|].
  destruct (split sep s); [contradiction | discriminate].
Qed.

(** [s.split(sep)] has one field more than [s] has separators. *)
Lemma split_length (sep : ascii) (s : string) :
  List.length (split sep s) = S (count sep s).
Proof.
  induction s as [|c s IH]; simpl; [reflexivity|].
  destruct (Ascii.eqb c sep); simpl; [congruence|].
  destruct (split sep s) eqn:E; [exfalso; eapply split_not_nil; eauto|].
  simpl in *. exact IH.
Qed.

Lemma truthy_true (s : string) : truthy s = true <-> s <> EmptyString.
Proof. destruct s; simpl; split; intros; congruence. Qed.

Lemma contains_refl (s : string) : contains s s = true.
Proof.
  destruct s as [|c s]; [reflexivity|].
  rewrite contains_cons.
  rewrite <- (append_nil_r (String c s)) at 2.
  rewrite prefix_refl_app. reflexivity.
Qed.

Lemma starts_with_inv (p c : string) :
  starts_with p c = true -> exists rest, c = p ++ rest.
Proof.
  revert c. induction p as [|a p IH]; intros c H.
  - exists c. reflexivity.
  - destruct c as [|b c]; [discriminate H|].
    cbn [starts_with] in H. apply andb_prop in H. destruct H as [E H].
    apply Ascii.eqb_eq in E. subst b.
    destruct (IH c H) as [rest ->]. exists rest. reflexivity.
Qed.

Lemma starts_with_app (p rest : string) : starts_with p (p ++ rest) = true.
Proof.
  induction p as [|a p IH]; [reflexivity|].
  cbn [append starts_with]. rewrite Ascii.eqb_refl. exact IH.
Qed.

Lemma length_append (a b : string) :
  String.length (a ++ b) = String.length a + String.length b.
Proof. induction a as [|c a IH]; cbn; congruence. Qed.

Lemma append_inv_tail (a b c : string) : a ++ c = b ++ c -> a = b.
Proof.
  revert b. induction a as [|x a IH]; intros [|y b] H.
  - reflexivity.
  - apply (f_equal String.length) in H. rewrite !length_append in H.
    cbn in H. lia.
  - apply (f_equal String.length) in H. rewrite !length_append in H.
    cbn in H. lia.
  - cbn in H. injection H as -> H. f_equal. apply IH, H.
Qed.

(** What [lstrip] takes away is white space, and it takes all of it. *)
Lemma lstrip_split (s : string) :
  exists l, s = l ++ lstrip s /\ blank l = true.
Proof.
  induction s as [|c s [l [E B]]]; [exists EmptyString; split; reflexivity|].
  cbn [lstrip]. destruct (is_space c) eqn:Sc.
  - exists (String c l). cbn [append blank]. rewrite <- E, Sc, B.
    split; reflexivity.
  - exists EmptyString. split; reflexivity.
Qed.

Lemma lstrip_first (s : string) (c : ascii) (t : string) :
  lstrip s = String c t -> is_space c = false.
Proof.
  induction s as [|a s IH]; [discriminate|].
  cbn [lstrip]. destruct (is_space a) eqn:Sa; [exact IH|].
  intros E. injection E as <- _. exact Sa.
Qed.

Lemma rstrip_split (s : string) :
  exists r, s = rstrip s ++ r /\ blank r = true.
Proof.
  induction s as [|c s [r [E B]]]; [exists EmptyString; split; reflexivity|].
  cbn [rstrip]. destruct (rstrip s) as [|d t].
  - cbn [append] in E. subst r. destruct (is_space c) eqn:Sc.
    + exists (String c s). cbn [append blank]. rewrite Sc, B.
      split; reflexivity.
    + exists s. split; [reflexivity | exact B].
  - exists r. cbn [append] in *. rewrite <- E. split; [reflexivity | exact B].
Qed.

Lemma rstrip_first (s : string) (c : ascii) (t : string) :
  rstrip s = String c t -> exists t', s = String c t'.
Proof.
  destruct s as [|a s]; [discriminate|].
  cbn [rstrip]. destruct (rstrip s); [destruct (is_space a)|];
    intros E; try discriminate E; injection E as <- _; eauto.
Qed.

Lemma rstrip_last (s t : string) (c : ascii) :
  rstrip s = t ++ String c EmptyString -> is_space c = false.
Proof.
  revert t. induction s as [|a s IH]; intros t.
  - destruct t; discriminate.
  - cbn [rstrip]. destruct (rstrip s) as [|d r].
    + destruct (is_space a) eqn:Sa; [destruct t; discriminate|].
      destruct t as [|x t]; cbn [append]; intros E.
      * injection E as <-. exact Sa.
      * injection E as _ E. destruct t; discriminate E.
    + destruct t as [|x t]; cbn [append]; intros E; [discriminate E|].
      injection E as _ E. exact (IH t E).
Qed.

(** [strip] takes white space away at both ends, and all of it. *)
Lemma strip_split (s : string) :
  exists l r, s = l ++ strip s ++ r /\ blank l = true /\ blank r = true.
Proof.
  destruct (lstrip_split s) as [l [E B]].
  destruct (rstrip_split (lstrip s)) as [r [E' B']].
  exists l, r. unfold strip. rewrite <- E'. auto.
Qed.

Lemma strip_first (s : string) (c : ascii) (t : string) :
  strip s = String c t -> is_space c = false.
Proof.
  unfold strip. intros E. apply rstrip_first in E. destruct E as [t' E].
  exact (lstrip_first s c t' E).
Qed.

Lemma strip_last (s t : string) (c : ascii) :
  strip s = t ++ String c EmptyString -> is_space c = false.
Proof. apply rstrip_last. Qed.

End TextFacts.

Import TextFacts.

(** ** The data volume lookup *)

Module VolumeFacts.

Lemma data_action_eval (m : Mount) :
  eval_action (AIfDestinationEq "/data" ASource) m
  = if is_data m then Source m else EmptyString.
Proof. reflexivity. Qed.

Lemma data_source_eval (ms : list Mount) :
  eval data_source ms
  = String.concat EmptyString (map Source (filter is_data ms)).
Proof.
  change (eval data_source ms)
    with (String.concat EmptyString
            (map (eval_action (AIfDestinationEq "/data" ASource)) ms)).
  induction ms as [|m ms IH]; [reflexivity|].
  change (map ?f (m :: ms)) with (f m :: map f ms).
  rewrite concat_empty_cons, IH, data_action_eval.
  change (filter is_data (m :: ms))
    with (if is_data m then m :: filter is_data ms else filter is_data ms).
  destruct (is_data m).
  - change (map Source (m :: ?l)) with (Source m :: map Source l).
    rewrite concat_empty_cons. reflexivity.
  - reflexivity.
Qed.

Lemma json_mount_mentions_data (m : Mount) :
  is_data m = true -> contains "/data" (json_mount m) = true.
Proof.
  unfold is_data. intros H. apply String.eqb_eq in H.
  unfold json_mount, json_field, json_string. rewrite H.
  apply contains_app_r.
  rewrite !append_assoc.
  do 21 apply contains_app_r.
  reflexivity.
Qed.

Lemma json_mounts_mentions_data (ms : list Mount) (m : Mount) :
  In m ms -> is_data m = true -> contains "/data" (json_mounts ms) = true.
Proof.
  intros Hin Hd. unfold json_mounts.
  apply contains_app_r, contains_app_l.
  induction ms as [|x ms IH]; [contradiction|].
  cbn [map]. destruct Hin as [->|Hin].
  - destruct ms as [|y ms]; cbn [map String.concat].
    + apply json_mount_mentions_data, Hd.
    + apply contains_app_l, json_mount_mentions_data, Hd.
  - destruct ms as [|y ms]; [contradiction|].
    change (String.concat "," (json_mount x :: map json_mount (y :: ms)))
      with (json_mount x ++ "," ++ String.concat "," (map json_mount (y :: ms))).
    do 2 apply contains_app_r. apply IH, Hin.
Qed.

Section Lookup.

Context {World : Type}.
Variable exec_command : World -> string -> World * ExecResult.

Lemma execute_completed (command : string) (w : World) (a : App)
      (code : Z) (output error : string) :
  snd (exec_command w command) = Completed code output error ->
  _execute_command exec_command command (w, a)
  = mkOutcome [Remote command (Completed code output error)]
              (fst (exec_command w command), a)
              (if negb (code =? 0)%Z
               then inl ("Command failed: " ++ command ++ nl ++ error)
               else inr output).
Proof.
  intros H. unfold _execute_command, bind, remote. cbn.
  rewrite H. destruct (negb (code =? 0)%Z); reflexivity.
Qed.

Lemma execute_raised (command : string) (w : World) (a : App)
      (message : string) :
  snd (exec_command w command) = Raised message ->
  _execute_command exec_command command (w, a)
  = mkOutcome [Remote command (Raised message)]
              (fst (exec_command w command), a) (inl message).
Proof.
  intros H. unfold _execute_command, bind, remote. cbn.
  rewrite H. reflexivity.
Qed.

Variable cname : string.
Variable ms : list Mount.
Hypothesis host : answers_inspect exec_command cname ms.

Lemma inspect_runs (t : Template) (w : World) (a : App) :
  In t [mounts_json; data_source; all_sources] ->
  _execute_command exec_command (inspect_command cname t) (w, a)
  = mkOutcome [Remote (inspect_command cname t)
                      (Completed 0 (inspect_output ms t) EmptyString)]
              (fst (exec_command w (inspect_command cname t)), a)
              (inr (inspect_output ms t)).
Proof.
  intros Ht. rewrite (execute_completed _ _ _ _ _ _ (host w t Ht)).
  reflexivity.
Qed.

(** The lookup in terms of the mount table. *)
Lemma volume_path_value (w : World) (a : App) (c : Container) :
  homebox_container a = Some c -> name c = cname ->
  value (_get_volume_path exec_command (w, a))
  = inr (let wanted :=
           strip (String.concat EmptyString (map Source (filter is_data ms))) in
         if contains "/data" (inspect_output ms mounts_json) && truthy wanted
         then Some wanted else (fallback_value ms)).
Proof.
  intros Hc Hn. unfold _get_volume_path, bind at 1, get_app.
  cbn [value final events snd fst].
  rewrite Hc, Hn. unfold bind at 1.
  change ("docker inspect " ++ cname ++ " --format '{{json .Mounts}}'")
    with (inspect_command cname mounts_json).
  rewrite inspect_runs by (cbn; auto). cbn [value final events].
  assert (F : forall w',
    value (bind (_execute_command exec_command
                   (inspect_command cname all_sources))
                (fun out =>
                   ret (if truthy (first_field newline (strip out))
                        then Some (first_field newline (strip out))
                        else None)) (w', a))
    = inr (fallback_value ms)).
  { intros w'. unfold bind. rewrite inspect_runs by (cbn; auto).
    cbn [value final events ret]. unfold inspect_output, fallback_value.
    rewrite strip_app_nl. reflexivity. }
  destruct (contains "/data" (inspect_output ms mounts_json)); cbn [andb].
  - unfold bind at 1.
    change ("docker inspect " ++ cname
            ++ " --format '{{range .Mounts}}{{if eq .Destination "
            ++ dquote ++ "/data" ++ dquote ++ "}}{{.Source}}{{end}}{{end}}'")
      with (inspect_command cname data_source).
    rewrite inspect_runs by (cbn; auto). cbn [value final events].
    replace (strip (inspect_output ms data_source))
      with (strip (String.concat EmptyString (map Source (filter is_data ms))))
      by (unfold inspect_output; rewrite strip_app_nl, data_source_eval;
          reflexivity).
    destruct (truthy _); [reflexivity | apply F].
  - apply F.
Qed.

End Lookup.

End VolumeFacts.

(** ** Rules for running the methods *)

Module Rules.

Section WithWorld.

Context {World : Type}.
Variable exec_command : World -> string -> World * ExecResult.
Variable scp_get : World -> string -> string -> World * option string.

Local Abbreviation M := (@Run.M World).
Local Abbreviation Post A := (list Event -> World * App -> string + A -> Prop).

Lemma wp_ret {A} (x : A) (Q : Post A) s : Q [] s (inr x) -> wp (ret x) Q s.
Proof. exact (fun H => H). Qed.

Lemma wp_raise {A} (e : string) (Q : Post A) s :
  Q [] s (inl e) -> wp (raise e) Q s.
Proof. exact (fun H => H). Qed.

Lemma wp_emit (e : Event) (Q : Post unit) s :
  Q [e] s (inr tt) -> wp (emit e) Q s.
Proof. exact (fun H => H). Qed.

Lemma wp_get_app (Q : Post App) s : Q [] s (inr (snd s)) -> wp get_app Q s.
Proof. exact (fun H => H). Qed.

Lemma wp_modify_app (f : App -> App) (Q : Post unit) s :
  Q [] (fst s, f (snd s)) (inr tt) -> wp (modify_app f) Q s.
Proof. exact (fun H => H). Qed.

Lemma wp_bind {A B} (c : M A) (k : A -> M B) (Q : Post B) s :
  wp c (fun ev1 s1 v1 =>
          match v1 with
          | inl e => Q ev1 s1 (inl e)
          | inr x => wp (k x) (fun ev2 s2 v2 => Q (ev1 ++ ev2)%list s2 v2) s1
          end) s ->
  wp (bind c k) Q s.
Proof.
  unfold wp, bind. destruct (value (c s)); cbn [events final value]; auto.
Qed.

Lemma wp_try_except {A} (c : M A) (h : string -> M A) (Q : Post A) s :
  wp c (fun ev1 s1 v1 =>
          match v1 with
          | inl e => wp (h e) (fun ev2 s2 v2 => Q (ev1 ++ ev2)%list s2 v2) s1
          | inr x => Q ev1 s1 (inr x)
          end) s ->
  wp (try_except c h) Q s.
Proof.
  unfold wp, try_except. destruct (value (c s)) eqn:E;
    cbn [events final value]; auto.
  intros H. rewrite E. exact H.
Qed.

Lemma wp_consequence {A} (c : M A) (R Q : Post A) s :
  wp c R s -> (forall ev s' v, R ev s' v -> Q ev s' v) -> wp c Q s.
Proof. unfold wp. auto. Qed.

Lemma wp_remote (command : string) (Q : Post ExecResult) s :
  (forall w' r, exec_command (fst s) command = (w', r) ->
                Q [Remote command r] (w', snd s) (inr r)) ->
  wp (remote exec_command command) Q s.
Proof.
  intros H. unfold wp, remote. cbn [events final value].
  apply H. destruct (exec_command (fst s) command); reflexivity.
Qed.

Lemma wp_transfer (remote_path local_path : string)
      (Q : Post (option string)) s :
  (forall w' r, scp_get (fst s) remote_path local_path = (w', r) ->
                Q [Transfer remote_path local_path r] (w', snd s) (inr r)) ->
  wp (transfer scp_get remote_path local_path) Q s.
Proof.
  intros H. unfold wp, transfer. cbn [events final value].
  apply H. destruct (scp_get (fst s) remote_path local_path); reflexivity.
Qed.

(** The three ways [_execute_command] can end. *)
Lemma wp_execute_command (command : string) (Q : Post string) s :
  (forall w' e, exec_command (fst s) command = (w', Raised e) ->
     Q [Remote command (Raised e)] (w', snd s) (inl e)) ->
  (forall w' code output error,
     exec_command (fst s) command = (w', Completed code output error) ->
     code <> 0%Z ->
     Q [Remote command (Completed code output error)] (w', snd s)
       (inl ("Command failed: " ++ command ++ nl ++ error))) ->
  (forall w' output error,
     exec_command (fst s) command = (w', Completed 0 output error) ->
     Q [Remote command (Completed 0 output error)] (w', snd s)
       (inr output)) ->
  wp (_execute_command exec_command command) Q s.
Proof.
  intros Hr Hf Hk. unfold _execute_command.
  apply wp_bind, wp_remote. intros w' r E.
  destruct r as [e|code output error].
  - apply wp_raise. rewrite app_nil_r. eauto.
  - destruct (Z.eqb_spec code 0) as [->|N]; cbn [negb].
    + apply wp_ret. rewrite app_nil_r. eauto.
    + apply wp_raise. rewrite app_nil_r. eauto.
Qed.

End WithWorld.

End Rules.

Import Rules.

(** ** Summaries of the stages *)

Module Stages.

(** One step of symbolic execution of a method. *)
Ltac wp_simpl := cbv beta iota zeta; cbn [fst snd].

Ltac wp_rule :=
  lazymatch goal with
  | |- wp (bind _ _) _ _ => apply wp_bind
  | |- wp (try_except _ _) _ _ => apply wp_try_except
  | |- wp (ret _) _ _ => apply wp_ret
  | |- wp (raise _) _ _ => apply wp_raise
  | |- wp (emit _) _ _ => apply wp_emit
  | |- wp get_app _ _ => apply wp_get_app
  | |- wp (modify_app _) _ _ => apply wp_modify_app
  | |- wp (_execute_command _ _) _ _ =>
      apply wp_execute_command;
      [ intros ? ? ? | intros ? ? ? ? ? ? | intros ? ? ? ? ]
  | |- wp (transfer _ _ _) _ _ => apply wp_transfer; intros ? ? ?
  | |- wp (remote _ _) _ _ => apply wp_remote; intros ? ? ?
  | |- wp (if ?b then _ else _) _ _ => destruct b eqn:?
  | |- wp (match ?x with _ => _ end) _ _ => destruct x eqn:?
  end; wp_simpl.

Section WithWorld.

Context {World : Type}.
Variable exec_command : World -> string -> World * ExecResult.
Variable scp_get : World -> string -> string -> World * option string.

Lemma only_remote_app (p : string) (a b : list Event) :
  only_remote p a -> only_remote p b -> only_remote p (a ++ b)%list.
Proof. unfold only_remote. intros. apply Forall_app. auto. Qed.

Lemma only_remote_nil (p : string) : only_remote p [].
Proof. constructor. Qed.

Lemma only_remote_one (p c : string) (r : ExecResult) :
  starts_with p c = true -> only_remote p [Remote c r].
Proof. intros H. repeat constructor. exact H. Qed.

(** The lookup only inspects the container and leaves the fields alone. *)
Lemma volume_path_summary (s : World * App) :
  wp (_get_volume_path exec_command)
     (fun ev s' _ => snd s' = snd s /\ only_remote "docker inspect " ev) s.
Proof.
  destruct s as [w a]. unfold _get_volume_path.
  repeat wp_rule;
    (split; [reflexivity |
             repeat first [ apply only_remote_nil
                          | apply only_remote_one; reflexivity
                          | apply only_remote_app ]]).
Qed.

(** The loop over the entries only copies and leaves the fields alone. *)
Lemma copy_entries_summary (volume_path temp_dir : string)
      (dirs : list string) (s : World * App) :
  wp (copy_entries exec_command volume_path temp_dir dirs)
     (fun ev s' _ => snd s' = snd s /\ only_remote "cp -r " ev) s.
Proof.
  revert s. induction dirs as [|d dirs IH]; intros [w a];
    cbn [copy_entries].
  - apply wp_ret. split; [reflexivity | apply only_remote_nil].
  - repeat wp_rule;
      try (split; [reflexivity |
                   repeat first [ apply only_remote_nil
                                | apply only_remote_one; reflexivity
                                | apply only_remote_app ]]).
    all: eapply wp_consequence; [apply IH|];
      cbn [snd]; intros ev s' v [E Hev]; split; [exact E|];
      repeat first [ apply only_remote_nil | exact Hev
                   | apply only_remote_one; reflexivity
                   | apply only_remote_app ].
Qed.

End WithWorld.

End Stages.

(** ** The pipeline *)

Module PipelineFacts.

Import Stages.

Ltac run_step :=
  lazymatch goal with
  | |- wp (_get_volume_path _) _ _ =>
      eapply wp_consequence;
      [ apply volume_path_summary
      | let E := fresh "E" in
        intros ? [? ?] [?|?] [E ?]; cbn [snd] in E; subst; wp_simpl ]
  | |- wp (copy_entries _ _ _ _) _ _ =>
      eapply wp_consequence;
      [ apply copy_entries_summary
      | let E := fresh "E" in
        intros ? [? ?] [?|?] [E ?]; cbn [snd] in E; subst; wp_simpl ]
  | |- wp (_backup_database _ _) _ _ => unfold _backup_database
  | |- wp (_backup_media _ _ _) _ _ => unfold _backup_media
  | |- wp (_backup_other_files _ _ _) _ _ => unfold _backup_other_files
  | |- wp (_download_backup _ _ _) _ _ => unfold _download_backup
  | |- wp (backup_steps _ _ _) _ _ => unfold backup_steps
  | |- wp (_do_backup _ _ _ _) _ _ =>
      unfold _do_backup; cbn [reads_e Nat.leb]
  | |- wp (start_backup) _ _ => unfold start_backup
  | |- wp (backup_run _ _ _ _) _ _ => unfold backup_run
  | |- wp (when _ _) _ _ => unfold when
  | _ => wp_rule
  end.

Lemma progress_values_app (a b : list Event) :
  progress_values (a ++ b) = (progress_values a ++ progress_values b)%list.
Proof.
  induction a as [|e a IH]; [reflexivity|].
  destruct e; cbn [progress_values app]; congruence.
Qed.

Lemma only_remote_progress (p : string) (evs : list Event) :
  only_remote p evs -> progress_values evs = [].
Proof.
  induction 1 as [|e evs He _ IH]; [reflexivity|].
  destruct e; try discriminate He. exact IH.
Qed.

Lemma only_remote_in (p : string) (evs : list Event) (e : Event) :
  only_remote p evs -> In e evs -> is_remote_with p e = true.
Proof. unfold only_remote. rewrite Forall_forall. auto. Qed.

(** Bring the events of a finished run into the shape of a list. *)
Ltac list_events := cbn [app].

(** Keep the postcondition folded while the method runs, and unfold it on
    the events of each finished run. *)
Ltac keep_post :=
  match goal with
  | |- wp _ ?Q _ => let P := fresh "post" in set (P := Q)
  end.

Ltac open_post :=
  match goal with P := _ |- _ => subst P end;
  cbv beta; cbn [snd]; list_events.

Ltac count_progress :=
  repeat first
    [ progress cbn [app progress_values]
    | rewrite progress_values_app
    | match goal with
      | H : only_remote _ ?ev |- context [progress_values ?ev] =>
          rewrite (only_remote_progress _ ev H)
      end ].

(** Find an event in the events of a run. *)
Ltac find_event :=
  first [ apply in_eq
        | apply in_cons; find_event
        | apply in_or_app; right; find_event
        | apply in_or_app; left; find_event ].

(** Go through the events an assumed event can be. *)
Ltac split_in H :=
  repeat match type of H with
    | In _ (_ :: _) => destruct H as [H|H]; [try discriminate H|]
    | In _ (_ ++ _)%list => apply in_app_or in H; destruct H as [H|H]
    | In _ [] => contradiction H
    end;
  try match type of H with
    | In ?e ?ev =>
        match goal with
        | R : only_remote ?p ev |- _ =>
            let F := fresh in
            pose proof (only_remote_in p ev e R H) as F;
            cbn in F; try discriminate F
        end
    end.

Lemma remote_eq (c c' : string) (r r' : ExecResult) :
  Remote c r = Remote c' r' -> c = c' /\ r = r'.
Proof. intros H. injection H. auto. Qed.

Lemma commands_app (a b : list Event) :
  commands (a ++ b) = (commands a ++ commands b)%list.
Proof.
  induction a as [|e a IH]; [reflexivity|].
  destruct e; cbn [commands app]; congruence.
Qed.

(** The inspections of the volume lookup come before the later stages. *)
Lemma inspect_not_later (evs : list Event) :
  only_remote "docker inspect " evs ->
  Forall (fun e => later_stage e = false) evs.
Proof.
  unfold only_remote. apply Forall_impl. intros e H.
  destruct e; try discriminate H.
  apply starts_with_inv in H. destruct H as [rest ->]. reflexivity.
Qed.

Ltac before_later :=
  repeat first
    [ apply Forall_nil
    | apply Forall_cons; [reflexivity|]
    | apply inspect_not_later; assumption
    | apply Forall_app; split ].

Lemma failed_with_cons (n : nat) (m : string) (e : Event)
      (evs : list Event) :
  failed_with n m evs -> failed_with n m (e :: evs).
Proof. intros [before ->]. exists (e :: before). reflexivity. Qed.

Lemma failed_with_handler (m : string) (before : list Event) :
  failed_with 2 m
    (before ++ [LogOutput ("ERROR: " ++ m);
                ShowError "Backup Failed" ("Backup failed:" ++ nl ++ m);
                Configure backup_btn "normal"]).
Proof. exists before. reflexivity. Qed.

Lemma inspect_commands_plain (timestamp : string) (evs : list Event) :
  only_remote "docker inspect " evs ->
  Forall (plain_command timestamp) (commands evs).
Proof.
  induction 1 as [|e evs He _ IH]; [constructor|].
  destruct e; try discriminate He. cbn [commands].
  constructor; [|exact IH].
  apply starts_with_inv in He. destruct He as [rest ->].
  split; [left; reflexivity|].
  split; [reflexivity|]. intros E. discriminate E.
Qed.

(** Recognise a command of the pipeline. *)
Ltac pick_command :=
  first [ reflexivity | eexists; reflexivity
        | left; pick_command | right; pick_command ].

Ltac plain :=
  split; [ unfold pipeline_command; cbv zeta; pick_command |];
  split; [ reflexivity |];
  let E := fresh "E" in
  intros E;
  first [ discriminate E
        | unfold workspace_command, other_dir_command in E;
          do 2 apply append_inv_head in E; discriminate E ].

Lemma media_check_command_inj (v v' : string) :
  media_check_command v = media_check_command v' -> v = v'.
Proof.
  unfold media_check_command. cbv zeta. intros H.
  apply append_inv_head in H.
  apply append_inv_tail in H. apply append_inv_tail in H. exact H.
Qed.

(** The copy of the media files is a command line ending in [|| true]. *)
Lemma media_copy_command_or_true (v t : string) :
  media_copy_command v t
  = ("cp -r " ++ (v ++ "/attachments") ++ "/* " ++ (t ++ "/media/")
     ++ " 2>/dev/null") ++ " || true".
Proof.
  unfold media_copy_command. cbv zeta.
  rewrite !append_assoc. reflexivity.
Qed.

Lemma same_head_refl (s : string) : same_head s s = true.
Proof. destruct s; [reflexivity | apply Ascii.eqb_refl]. Qed.

Lemma same_kind_refl (e : Event) : same_kind e e = true.
Proof. destruct e; try reflexivity; apply same_head_refl. Qed.

Lemma in_marked (e : Event) (l : list Event) (marks : list bool) :
  map (same_kind e) l = marks -> In e l -> In e (pick marks l).
Proof.
  intros <-. induction l as [|x l IH]; [intros []|].
  intros [->|H]; cbn [map pick].
  - rewrite same_kind_refl. left. reflexivity.
  - destruct (same_kind e x); [right|]; apply IH, H.
Qed.

(** The same as [split_in], looking only at the events of the kind of
    the assumed one. *)
Ltac mark_in H :=
  match type of H with
  | In ?e ?l =>
      let m := eval vm_compute in (map (same_kind e) l) in
      apply (in_marked e l m (eq_refl m <: map (same_kind e) l = m)) in H;
      cbn [pick] in H
  end.

Ltac listed_part l :=
  lazymatch l with
  | ?x :: ?r => let p := listed_part r in constr:(x :: p)
  | _ => constr:(@nil Event)
  end.

Ltac other_part l :=
  lazymatch l with
  | _ :: ?r => other_part r
  | ?r => r
  end.

Lemma all_ok_in (evs : list Event) (e : Event) :
  all_ok evs = true -> In e evs -> failing e = false.
Proof.
  unfold all_ok. rewrite forallb_forall. intros H Hin.
  apply negb_true_iff. exact (H e Hin).
Qed.

(** The commands of the fixed pipeline list nothing and make no directory
    for other files. *)
Lemma fixed_pipeline_plain (timestamp : string) (volume : option string)
      (pg : option Container) (media : bool) :
  Forall (plain_command timestamp) (fixed_pipeline timestamp volume pg media).
Proof.
  destruct volume as [v|], pg as [c|], media; cbv [fixed_pipeline];
    cbn [app]; repeat (apply Forall_cons; [plain|]); apply Forall_nil.
Qed.

Ltac leaf_in H :=
  lazymatch type of H with
  | In _ [] => contradiction H
  | In ?e (?x :: ?r) =>
      let p := listed_part (x :: r) in
      let t := other_part (x :: r) in
      lazymatch t with
      | [] => mark_in H; split_in H
      | _ =>
          change (In e (p ++ t)) in H;
          apply in_app_or in H; destruct H as [H|H];
          [ mark_in H; split_in H | leaf_in H ]
      end
  | In _ (_ ++ _) =>
      apply in_app_or in H; destruct H as [H|H]; [ leaf_in H | leaf_in H ]
  | In ?e ?ev =>
      match goal with
      | R : only_remote ?p ev |- _ =>
          let F := fresh in
          pose proof (only_remote_in p ev e R H) as F;
          cbn in F; try discriminate F
      end
  end.

Section WithWorld.

Context {World : Type}.
Variable exec_command : World -> string -> World * ExecResult.
Variable scp_get : World -> string -> string -> World * option string.

Lemma progress_of_run (timestamp : string) (s : World * App) :
  wp (backup_run exec_command scp_get 2 timestamp)
     (fun evs _ _ =>
        Sorted Z.le (progress_values evs)
        /\ (In 100%Z (progress_values evs) -> succeeded evs /\ ~ failed evs)) s.
Proof.
  destruct s as [w a]. keep_post.
  repeat run_step.
  all: open_post; count_progress.
  all: split; [ repeat constructor; lia | ].
  all: intros Hin; cbn [In] in Hin;
    repeat (destruct Hin as [Hin|Hin]; [try discriminate Hin|]);
    try contradiction Hin.
  all: split; [ unfold succeeded; find_event | ].
  all: intros [m Hm]; split_in Hm.
Qed.

Lemma dump_failure_of_run (timestamp : string) (s : World * App) :
  wp (_do_backup exec_command scp_get 2 timestamp)
     (fun evs _ _ =>
        forall pg temp_dir code output error,
          In (Remote (dump_command pg temp_dir)
                     (Completed code output error)) evs ->
          code <> 0%Z ->
          let message :=
            "Command failed: " ++ dump_command pg temp_dir ++ nl ++ error in
          Forall (fun e => later_stage e = false) evs
          /\ failed_with 2 message evs
          /\ contains error message = true
          /\ ~ succeeded evs) s.
Proof.
  destruct s as [w a]. keep_post.
  repeat run_step.
  all: open_post; intros pg temp_dir code' output' error' Hin Hcode;
    leaf_in Hin.
  all: apply remote_eq in Hin; destruct Hin as [Hc Hr];
    injection Hr as Hk Ho He;
    try (exfalso; apply Hcode; symmetry; exact Hk).
  all: subst code' output' error'; rewrite <- Hc; cbv zeta.
  all: split; [before_later|].
  all: split;
    [repeat first [apply failed_with_handler | apply failed_with_cons]|].
  all: split; [repeat apply contains_app_r; apply contains_refl|].
  all: intros Hs; unfold succeeded in Hs; leaf_in Hs.
Qed.

Lemma fixed_commands_of_run (timestamp : string) (s : World * App) :
  backup_other_var (snd s) = false ->
  wp (_do_backup exec_command scp_get 2 timestamp)
     (fun evs _ _ =>
        let lookup := _get_volume_path exec_command s in
        exists media issued rest,
          commands evs = (commands (events lookup) ++ issued)%list
          /\ fixed_pipeline timestamp (usable (value lookup))
                            (postgres_container (snd s)) media
             = (issued ++ rest)%list
          /\ (all_ok evs = true -> rest = [])
          /\ (media = true <->
              exists v output error,
                In (Remote (media_check_command v) (Completed 0 output error))
                   evs
                /\ strip output = "exists")) s.
Proof.
  destruct s as [w a]. cbn [snd]. intros Hv.
  pose proof (volume_path_summary exec_command (w, a)) as S.
  unfold wp in S. cbn [snd] in S. destruct S as [Sa So].
  keep_post.
  repeat lazymatch goal with
         | |- wp (_get_volume_path _) _ _ => fail
         | _ => run_step
         end.
  unfold wp at 1.
  remember (_get_volume_path exec_command (w, a)) as look eqn:L.
  destruct look as [lev [lw la] lv]. cbn [events final value snd] in *.
  subst la.
  destruct lv as [e|[v|]]; wp_simpl;
    repeat first [ rewrite Hv | run_step ].
  all: open_post; cbv zeta; cbn [events value usable];
    repeat match goal with
           | H : negb _ = true |- _ => apply negb_true_iff in H
           | H : negb _ = false |- _ => apply negb_false_iff in H
           | H : truthy _ = _ |- _ => rewrite H
           | H : postgres_container _ = _ |- _ => rewrite H
           end.
  all: repeat rewrite <- app_assoc; cbn [app].
  all: lazymatch goal with
       | H : (strip _ =? "exists") = true |- _ => exists true
       | _ => exists false
       end; do 2 eexists.
  all: split;
    [ repeat first [ progress cbn [app commands] | rewrite commands_app ];
      reflexivity |].
  all: split; [cbv [fixed_pipeline]; cbn [app]; reflexivity|].
  all: split;
    [ intros Hok;
      first
        [ reflexivity
        | exfalso;
          match type of Hok with
          | all_ok ?l = true =>
              match l with
              | context [Remote ?c (Raised ?e)] =>
                  pose proof (all_ok_in l (Remote c (Raised e)) Hok
                                ltac:(find_event)) as F;
                  discriminate F
              | context [Remote ?c (Completed ?code ?o ?e)] =>
                  match goal with
                  | Hc : code <> 0%Z |- _ =>
                      pose proof (all_ok_in l (Remote c (Completed code o e))
                                    Hok ltac:(find_event)) as F;
                      cbn [failing] in F; apply negb_false_iff in F;
                      apply Z.eqb_eq in F; contradiction
                  end
              end
          end ] |].
  all: split;
    [ intros E;
      first [ discriminate E
            | do 3 eexists; split;
              [find_event | apply String.eqb_eq; eassumption] ]
    | intros [v' [o' [e' [Hin Hs]]]];
      first [ reflexivity | exfalso; leaf_in Hin ] ].
  all: apply remote_eq in Hin; destruct Hin as [_ Hr];
    injection Hr; intros; subst; try congruence.
  all: match goal with
       | Hb : (strip ?o =? "exists") = false, Ho : strip ?o = _ |- _ =>
           rewrite Ho in Hb; discriminate Hb
       end.
Qed.

Lemma lookup_commands_plain (timestamp : string) (s : World * App) :
  Forall (plain_command timestamp)
         (commands (events (_get_volume_path exec_command s))).
Proof.
  pose proof (volume_path_summary exec_command s) as S.
  unfold wp in S. apply inspect_commands_plain, S.
Qed.

Lemma start_backup_keeps_path (s : World * App) :
  wp (World := World) start_backup
     (fun _ s' _ => remote_backup_path (snd s') = remote_backup_path (snd s)) s.
Proof. destruct s as [w a]. repeat run_step; reflexivity. Qed.

Lemma scan_keeps_path (in_time : nat) (s : World * App) :
  wp (_do_scan_containers exec_command in_time)
     (fun _ s' _ => remote_backup_path (snd s') = remote_backup_path (snd s)) s.
Proof.
  destruct s as [w a]. unfold _do_scan_containers.
  repeat run_step; reflexivity.
Qed.

(** The scan on a listing that completed. *)
Lemma scan_of_result (in_time : nat) (w : World) (a : App)
      (code : Z) (output error : string) :
  snd (exec_command w scan_command) = Completed code output error ->
  wp (_do_scan_containers exec_command in_time)
     (fun evs _ v =>
        evs
        = (Remote scan_command (Completed code output error)
           :: (if truthy error then [LogOutput ("Warning: " ++ error)]
               else [])
           ++ match parse_containers output with
              | [] => [ShowWarning "No Containers"
                                   "No running Docker containers found";
                       Configure refresh_btn "normal"]
              | containers => [UpdateContainerLists containers]
              end)%list
        /\ v = inr tt) (w, a).
Proof.
  intros H. unfold _do_scan_containers.
  repeat (run_step;
          try match goal with
              | Hx : exec_command _ _ = (_, ?r) |- _ =>
                  cbn [fst] in Hx; rewrite Hx in H; cbn [snd] in H; subst r
              end).
  all: repeat match goal with
              | Hx : truthy _ = _ |- _ => rewrite Hx
              | Hx : parse_containers _ = _ |- _ => rewrite Hx
              end;
    split; reflexivity.
Qed.

Lemma delete_path (response : bool) (s : World * App) :
  wp (delete_server_backup exec_command response)
     (fun _ s' _ =>
        remote_backup_path (snd s')
        = match remote_backup_path (snd s) with
          | Some path =>
              if truthy path && response then
                match snd (exec_command (fst s) ("rm -f " ++ path)) with
                | Completed exit_status _ _ =>
                    if (exit_status =? 0)%Z then None else Some path
                | Raised _ => Some path
                end
              else Some path
          | None => None
          end) s.
Proof.
  destruct s as [w a]. unfold delete_server_backup.
  repeat run_step; cbn [fst snd] in *;
    repeat match goal with
           | H : remote_backup_path _ = _ |- _ => rewrite H
           | H : negb _ = true |- _ => apply negb_true_iff in H
           | H : negb _ = false |- _ => apply negb_false_iff in H
           | H : truthy _ = _ |- _ => rewrite H
           | H : exec_command _ _ = _ |- _ => rewrite H
           end; subst; cbn [andb snd]; try reflexivity.
  destruct (Z.eqb_spec code 0); [contradiction | reflexivity].
Qed.

Lemma archive_path_of_run (timestamp : string) (s : World * App) :
  wp (_do_backup exec_command scp_get 2 timestamp)
     (fun evs s' _ =>
        let backup_name := "homebox_backup_" ++ timestamp in
        (archived backup_name evs ->
         remote_backup_path (snd s')
         = Some ("/tmp/" ++ backup_name ++ ".tar.gz"))
        /\ (~ archived backup_name evs ->
            remote_backup_path (snd s') = remote_backup_path (snd s))) s.
Proof.
  destruct s as [w a]. keep_post.
  repeat run_step.
  all: open_post; cbv zeta.
  all: split;
    [ intros [_ [? [? Hin]]]; first [reflexivity | exfalso; leaf_in Hin]
    | intros N; first [reflexivity
                      | exfalso; apply N; split; do 2 eexists; find_event] ].
  all: apply remote_eq in Hin; destruct Hin as [_ Hr];
    injection Hr; intros; congruence.
Qed.

Section ErrorSuppression.

Hypothesis shell : or_true_succeeds exec_command.

Lemma media_copy_completes (w w' : World) (v t : string) (r : ExecResult) :
  exec_command w (media_copy_command v t) = (w', r) ->
  exists output error, r = Completed 0 output error.
Proof.
  intros H. rewrite media_copy_command_or_true in H.
  destruct (shell w ("cp -r " ++ (v ++ "/attachments") ++ "/* "
                     ++ (t ++ "/media/") ++ " 2>/dev/null"))
    as [output [error E]].
  rewrite H in E. cbn [snd] in E. eauto.
Qed.

Lemma media_copy_of_run (timestamp : string) (s : World * App) :
  wp (_do_backup exec_command scp_get 2 timestamp)
     (fun evs _ _ =>
        forall v output error,
          In (Remote (media_check_command v) (Completed 0 output error)) evs ->
          strip output = "exists" ->
          let backup_name := "homebox_backup_" ++ timestamp in
          (exists output' error',
              In (Remote (media_copy_command v ("/tmp/" ++ backup_name))
                         (Completed 0 output' error')) evs)
          /\ In (LogOutput "Media files backup completed") evs
          /\ In (ProgressSet 60) evs
          /\ (backup_other_var (snd s) = false ->
              exists r, In (Remote (archive_command backup_name) r) evs)) s.
Proof.
  destruct s as [w a]. keep_post.
  repeat run_step.
  all: open_post; intros v output' error' Hin Hout; leaf_in Hin.
  all: apply remote_eq in Hin; destruct Hin as [Hc Hr];
    apply media_check_command_inj in Hc;
    injection Hr; intros; subst; try congruence.
  all: try match goal with
    | Hb : String.eqb (strip ?o) _ = false, Ho : strip ?o = _ |- _ =>
        rewrite Ho in Hb; discriminate Hb
    end.
  all: try match goal with
    | Hx : exec_command _ (media_copy_command _ _) = (_, ?r) |- _ =>
        let o := fresh in let e := fresh in let E := fresh in
        destruct (media_copy_completes _ _ _ _ _ Hx) as [o [e E]];
        first [ discriminate E | injection E as E; congruence ]
    end.
  all: split; [do 2 eexists; find_event|].
  all: split; [find_event|].
  all: split; [find_event|].
  all: intros Hf; try congruence; eexists; find_event.
Qed.

End ErrorSuppression.

End WithWorld.

End PipelineFacts.

(** ** Facts about listings *)

Module ListingFacts.

Lemma count_app (c : ascii) (a b : string) :
  count c (a ++ b) = count c a + count c b.
Proof.
  induction a as [|x a IH]; [reflexivity|].
  cbn [append count]. rewrite IH. lia.
Qed.

Lemma join_cons (sep : ascii) (x y : string) (l : list string) :
  join sep (x :: y :: l) = x ++ String sep (join sep (y :: l)).
Proof. reflexivity. Qed.

(** Splitting and joining again gives the text back. *)
Lemma join_split (sep : ascii) (s : string) : join sep (split sep s) = s.
Proof.
  induction s as [|c s IH]; [reflexivity|].
  cbn [split]. destruct (Ascii.eqb_spec c sep) as [->|N].
  - destruct (split sep s) as [|h t] eqn:E;
      [exfalso; exact (split_not_nil sep s E)|].
    rewrite join_cons. cbn [append]. rewrite IH. reflexivity.
  - destruct (split sep s) as [|h t] eqn:E;
      [exfalso; exact (split_not_nil sep s E)|].
    destruct t as [|h' t].
    + cbn in IH |- *. rewrite IH. reflexivity.
    + rewrite join_cons in IH |- *. cbn [append]. rewrite IH. reflexivity.
Qed.

(** No field of a split holds the separator. *)
Lemma split_fields (sep : ascii) (s : string) :
  Forall (fun f => count sep f = 0) (split sep s).
Proof.
  induction s as [|c s IH]; [repeat constructor|].
  cbn [split]. destruct (Ascii.eqb_spec c sep) as [->|N].
  - constructor; [reflexivity | exact IH].
  - destruct (split sep s) as [|h t]; [repeat constructor|].
    + cbn [count]. destruct (Ascii.eqb_spec c sep); [contradiction|reflexivity].
    + inversion IH as [|? ? Hh Ht]; subst. constructor; [|exact Ht].
      cbn [count]. destruct (Ascii.eqb_spec c sep); [contradiction|exact Hh].
Qed.

(** Joining fields free of the separator and splitting again gives the
    fields back. *)
Lemma split_join (sep : ascii) (fields : list string) :
  fields <> [] ->
  Forall (fun f => count sep f = 0) fields ->
  split sep (join sep fields) = fields.
Proof.
  intros Hne H. induction H as [|f fields Hf _ IH]; [contradiction|].
  clear Hne. destruct fields as [|g fields].
  - cbn [join String.concat]. clear IH.
    induction f as [|c f IHf]; [reflexivity|].
    cbn [count] in Hf. cbn [split].
    destruct (Ascii.eqb c sep); [discriminate Hf|].
    rewrite IHf by exact Hf. reflexivity.
  - rewrite join_cons. specialize (IH ltac:(discriminate)).
    induction f as [|c f IHf].
    + cbn [append split]. rewrite Ascii.eqb_refl. rewrite IH. reflexivity.
    + cbn [count] in Hf. cbn [append split].
      destruct (Ascii.eqb c sep); [discriminate Hf|].
      rewrite IHf by exact Hf. reflexivity.
Qed.

Lemma parse_line_in (line : string) (c : Container) :
  In c (parse_line line) ->
  line = listing_line c
  /\ count pipe (id c) = 0 /\ count pipe (name c) = 0
  /\ count pipe (image c) = 0
  /\ display c = name c ++ " (" ++ image c ++ ")".
Proof.
  unfold parse_line. destruct (truthy line); [|contradiction].
  pose proof (join_split pipe line) as J.
  pose proof (split_fields pipe line) as F.
  destruct (split pipe line) as [|a [|b [|d [|e l]]]]; try contradiction.
  intros [<-|[]]. cbn [id name image display].
  inversion F as [|? ? Fa F1]; subst.
  inversion F1 as [|? ? Fb F2]; subst.
  inversion F2 as [|? ? Fd _]; subst.
  repeat split; try assumption; try (rewrite <- J; reflexivity).
Qed.

Lemma listed_fields (c : Container) :
  listed c = true ->
  (count pipe (id c) = 0 /\ count newline (id c) = 0)
  /\ (count pipe (name c) = 0 /\ count newline (name c) = 0)
  /\ (count pipe (image c) = 0 /\ count newline (image c) = 0)
  /\ display c = name c ++ " (" ++ image c ++ ")".
Proof.
  unfold listed, plain_field.
  rewrite !andb_true_iff, !Nat.eqb_eq, String.eqb_eq. tauto.
Qed.

Lemma parse_line_listed (c : Container) :
  listed c = true -> parse_line (listing_line c) = [c].
Proof.
  intros H. apply listed_fields in H.
  destruct H as [[Hi _] [[Hn _] [[Hm _] Hd]]].
  unfold parse_line.
  assert (S : split pipe (listing_line c) = [id c; name c; image c]).
  { change (listing_line c) with (join pipe [id c; name c; image c]).
    apply split_join; [discriminate|]. repeat constructor; assumption. }
  rewrite S.
  replace (truthy (listing_line c)) with true
    by (unfold listing_line; destruct (id c); reflexivity).
  destruct c as [i n m d]. cbn [id name image display] in *. subst d.
  reflexivity.
Qed.

End ListingFacts.

Import ListingFacts.

(** ** The schedule of the callbacks *)

Module ScheduleFacts.

Lemma app_inj_three {A} (l l' : list A) (a b c a' b' c' : A) :
  (l ++ [a; b; c] = l' ++ [a'; b'; c'])%list ->
  l = l' /\ a = a' /\ b = b' /\ c = c'.
Proof.
  intros H.
  change [a; b; c] with ([a; b] ++ [c])%list in H.
  change [a'; b'; c'] with ([a'; b'] ++ [c'])%list in H.
  rewrite !app_assoc in H. apply app_inj_tail in H. destruct H as [H Hc].
  change [a; b] with ([a] ++ [b])%list in H.
  change [a'; b'] with ([a'] ++ [b'])%list in H.
  rewrite !app_assoc in H. apply app_inj_tail in H. destruct H as [H Hb].
  apply app_inj_tail in H. tauto.
Qed.

Lemma late_refl (evs : list Event) : Forall2 late_of evs evs.
Proof. induction evs; constructor; [left; reflexivity | assumption]. Qed.

Lemma late_handler (n : nat) (e : string) :
  Forall2 late_of (handler_shows n e) (handler_shows 2 e).
Proof.
  destruct n as [|[|n]]; cbn [handler_shows app];
    repeat constructor; first [left; reflexivity | right; split; reflexivity].
Qed.

Lemma late_progress (a b : list Event) :
  Forall2 late_of a b -> progress_values a = progress_values b.
Proof.
  induction 1 as [|x y a b [->|[-> Hy]] _ IH]; [reflexivity| |].
  - destruct y; cbn [progress_values]; congruence.
  - destruct y; try discriminate Hy; exact IH.
Qed.

Lemma late_commands (a b : list Event) :
  Forall2 late_of a b -> commands a = commands b.
Proof.
  induction 1 as [|x y a b [->|[-> Hy]] _ IH]; [reflexivity| |].
  - destruct y; cbn [commands]; congruence.
  - destruct y; try discriminate Hy; exact IH.
Qed.

(** What a run shows is shown by the run in which no callback is late. *)
Lemma late_in_l (a b : list Event) (x : Event) :
  Forall2 late_of a b -> In x a -> x <> CallbackNameError "e" -> In x b.
Proof.
  induction 1 as [|x' y a b [->|[-> Hy]] _ IH]; [intros []| |].
  - intros [->|H] N; [left; reflexivity | right; auto].
  - intros [<-|H] N; [contradiction | right; auto].
Qed.

(** What is no message of a handler is in both runs. *)
Lemma late_in_r (a b : list Event) (y : Event) :
  Forall2 late_of a b -> In y b -> handler_message y = false -> In y a.
Proof.
  induction 1 as [|x y' a b [->|[-> Hy]] _ IH]; [intros []| |].
  - intros [->|H] N; [left; reflexivity | right; auto].
  - intros [<-|H] N; [congruence | right; auto].
Qed.

Lemma late_forall (P : Event -> Prop) (a b : list Event) :
  Forall2 late_of a b -> P (CallbackNameError "e") -> Forall P b -> Forall P a.
Proof.
  intros H N. induction H as [|x y a b [->|[-> Hy]] _ IH]; [constructor| |];
    intros F; inversion F; subst; constructor; auto.
Qed.

Lemma late_succeeded (a b : list Event) :
  Forall2 late_of a b -> (succeeded a <-> succeeded b).
Proof.
  intros H. unfold succeeded. split; intros S.
  - apply (late_in_l a b _ H S). discriminate.
  - apply (late_in_r a b _ H S). reflexivity.
Qed.

Lemma late_failed (a b : list Event) :
  Forall2 late_of a b -> failed a -> failed b.
Proof.
  intros H [m S]. exists m. apply (late_in_l a b _ H S). discriminate.
Qed.

Lemma late_all_ok (a b : list Event) :
  Forall2 late_of a b -> all_ok a = all_ok b.
Proof.
  induction 1 as [|x y a b [->|[-> Hy]] _ IH]; [reflexivity| |];
    cbn [all_ok forallb] in *; fold (all_ok a); fold (all_ok b).
  - rewrite IH. reflexivity.
  - destruct y; try discriminate Hy; exact IH.
Qed.

Lemma late_archived (backup_name : string) (a b : list Event) :
  Forall2 late_of a b -> (archived backup_name a <-> archived backup_name b).
Proof.
  intros L. unfold archived, completed.
  split; intros [[o1 [e1 H1]] [o2 [e2 H2]]]; split.
  - exists o1, e1. apply (late_in_l _ _ _ L H1). discriminate.
  - exists o2, e2. apply (late_in_l _ _ _ L H2). discriminate.
  - exists o1, e1. apply (late_in_r _ _ _ L H1). reflexivity.
  - exists o2, e2. apply (late_in_r _ _ _ L H2). reflexivity.
Qed.

Section WithWorld.

Context {World : Type}.
Variable exec_command : World -> string -> World * ExecResult.
Variable scp_get : World -> string -> string -> World * option string.

Local Abbreviation M := (@Run.M World).

(** The worker is its steps and, when they raise, the handler. *)
Lemma do_backup_events (in_time : nat) (timestamp : string)
      (s : World * App) :
  let b := backup_steps exec_command scp_get timestamp s in
  let r := _do_backup exec_command scp_get in_time timestamp s in
  final r = final b /\ value r = inr tt
  /\ events r = (events b ++ match value b with
                             | inl e => handler_shows in_time e
                             | inr _ => []
                             end)%list.
Proof.
  cbv zeta. unfold _do_backup, try_except.
  destruct (value (backup_steps exec_command scp_get timestamp s))
    as [e|[]] eqn:E.
  - cbv [bind emit events final value]. cbn [app].
    destruct in_time as [|[|n]]; repeat split; reflexivity.
  - rewrite app_nil_r, E. repeat split.
Qed.

Lemma do_backup_late (in_time : nat) (timestamp : string) (s : World * App) :
  Forall2 late_of
    (events (_do_backup exec_command scp_get in_time timestamp s))
    (events (_do_backup exec_command scp_get 2 timestamp s)).
Proof.
  destruct (do_backup_events in_time timestamp s) as [_ [_ ->]].
  destruct (do_backup_events 2 timestamp s) as [_ [_ ->]].
  apply Forall2_app; [apply late_refl|].
  destruct (value _); [apply late_handler | constructor].
Qed.

Lemma do_backup_final (in_time : nat) (timestamp : string) (s : World * App) :
  final (_do_backup exec_command scp_get in_time timestamp s)
  = final (_do_backup exec_command scp_get 2 timestamp s).
Proof.
  destruct (do_backup_events in_time timestamp s) as [-> _].
  destruct (do_backup_events 2 timestamp s) as [-> _]. reflexivity.
Qed.

Lemma backup_run_late (in_time : nat) (timestamp : string) (s : World * App) :
  Forall2 late_of
    (events (backup_run exec_command scp_get in_time timestamp s))
    (events (backup_run exec_command scp_get 2 timestamp s)).
Proof.
  unfold backup_run, bind.
  destruct (value (start_backup s)) as [e|[|]]; cbn [events].
  - apply late_refl.
  - apply Forall2_app; [apply late_refl | apply do_backup_late].
  - apply late_refl.
Qed.

(** *** The steps show no message of a handler *)

Lemma steps_ret {A} (x : A) : steps_only (World := World) (ret x).
Proof. intros s. constructor. Qed.

Lemma steps_raise {A} (e : string) :
  steps_only (World := World) (A := A) (raise e).
Proof. intros s. constructor. Qed.

Lemma steps_emit (e : Event) :
  of_steps e = true -> steps_only (World := World) (emit e).
Proof. intros H s. repeat constructor. exact H. Qed.

Lemma steps_get_app : steps_only (World := World) get_app.
Proof. intros s. constructor. Qed.

Lemma steps_modify_app (f : App -> App) :
  steps_only (World := World) (modify_app f).
Proof. intros s. constructor. Qed.

Lemma steps_remote (command : string) :
  steps_only (remote exec_command command).
Proof. intros s. repeat constructor. Qed.

Lemma steps_transfer (remote_path local_path : string) :
  steps_only (transfer scp_get remote_path local_path).
Proof. intros s. repeat constructor. Qed.

Lemma steps_bind {A B} (c : M A) (k : A -> M B) :
  steps_only c -> (forall x, steps_only (k x)) -> steps_only (bind c k).
Proof.
  intros Hc Hk s. unfold bind.
  destruct (value (c s)) as [e|x]; cbn [events]; [apply Hc|].
  apply Forall_app. split; [apply Hc | apply Hk].
Qed.

Ltac steps_step :=
  lazymatch goal with
  | |- steps_only (bind _ _) => apply steps_bind; [|intros ?]
  | |- steps_only (ret _) => apply steps_ret
  | |- steps_only (raise _) => apply steps_raise
  | |- steps_only (emit _) => apply steps_emit; reflexivity
  | |- steps_only get_app => apply steps_get_app
  | |- steps_only (modify_app _) => apply steps_modify_app
  | |- steps_only (remote _ _) => apply steps_remote
  | |- steps_only (transfer _ _ _) => apply steps_transfer
  | |- steps_only (_execute_command _ _) => unfold _execute_command
  | |- steps_only (_get_volume_path _) => unfold _get_volume_path
  | |- steps_only (_backup_database _ _) => unfold _backup_database
  | |- steps_only (_backup_media _ _ _) => unfold _backup_media
  | |- steps_only (_download_backup _ _ _) => unfold _download_backup
  | |- steps_only (if ?b then _ else _) => destruct b
  | |- steps_only (match ?x with _ => _ end) => destruct x
  end.

Lemma steps_copy_entries (volume_path temp_dir : string)
      (dirs : list string) :
  steps_only (copy_entries exec_command volume_path temp_dir dirs).
Proof.
  induction dirs as [|d dirs IH]; cbn [copy_entries].
  - apply steps_ret.
  - apply steps_bind; [repeat steps_step | intros _; exact IH].
Qed.

Lemma steps_other_files (volume_path temp_dir : string) :
  steps_only (_backup_other_files exec_command volume_path temp_dir).
Proof.
  unfold _backup_other_files.
  apply steps_bind; [repeat steps_step | intros out].
  apply steps_bind; [apply steps_copy_entries | intros _].
  steps_step.
Qed.

Lemma steps_backup_steps (timestamp : string) :
  steps_only (backup_steps exec_command scp_get timestamp).
Proof.
  unfold backup_steps.
  repeat lazymatch goal with
         | |- steps_only (_backup_other_files _ _ _) =>
             apply steps_other_files
         | _ => steps_step
         end.
Qed.

Lemma of_steps_quiet (evs : list Event) :
  Forall (fun e => of_steps e = true) evs -> nothing_surfaced evs.
Proof.
  apply Forall_impl. intros e H. unfold of_steps in H.
  apply andb_prop in H. destruct H as [H _].
  apply negb_true_iff in H. exact H.
Qed.

(** A run ends in the handler exactly when its steps raise. *)
Lemma failed_with_raised (in_time : nat) (timestamp : string)
      (s : World * App) (m : string) :
  failed_with in_time m
    (events (_do_backup exec_command scp_get in_time timestamp s)) ->
  exists e, value (backup_steps exec_command scp_get timestamp s) = inl e
            /\ (1 <= in_time -> e = m).
Proof.
  intros [before E].
  destruct (do_backup_events in_time timestamp s) as [_ [_ Ev]].
  rewrite Ev in E. clear Ev.
  pose proof (steps_backup_steps timestamp s) as Q.
  destruct (value (backup_steps exec_command scp_get timestamp s))
    as [e|[]].
  - exists e. split; [reflexivity|]. intros Hn.
    destruct in_time as [|[|n]]; [lia| |]; cbn [handler_shows app] in E;
      apply app_inj_three in E; destruct E as [_ [E _]];
      injection E as E; exact E.
  - exfalso. rewrite app_nil_r in E. rewrite E in Q.
    apply Forall_app in Q. destruct Q as [_ Q].
    destruct in_time as [|[|n]]; cbn [handler_shows app] in Q;
      inversion Q as [|? ? Hq _]; discriminate Hq.
Qed.

Lemma raised_failed_with (in_time : nat) (timestamp : string)
      (s : World * App) (e : string) :
  value (backup_steps exec_command scp_get timestamp s) = inl e ->
  failed_with in_time e
    (events (_do_backup exec_command scp_get in_time timestamp s)).
Proof.
  intros V. destruct (do_backup_events in_time timestamp s) as [_ [_ ->]].
  rewrite V. eexists. reflexivity.
Qed.

(** What the run in which no callback is late ends with, every run ends
    with. *)
Lemma failed_with_schedule (in_time : nat) (timestamp : string)
      (s : World * App) (m : string) :
  failed_with 2 m (events (_do_backup exec_command scp_get 2 timestamp s)) ->
  failed_with in_time m
    (events (_do_backup exec_command scp_get in_time timestamp s)).
Proof.
  intros H. apply failed_with_raised in H. destruct H as [e [V E]].
  rewrite <- (E ltac:(lia)). apply raised_failed_with, V.
Qed.

(** When every callback of the handler comes too late, no failure is on
    the screen. *)
Lemma late_run_is_quiet (timestamp : string) (s : World * App) :
  nothing_surfaced (events (_do_backup exec_command scp_get 0 timestamp s)).
Proof.
  destruct (do_backup_events 0 timestamp s) as [_ [_ ->]].
  apply Forall_app. split.
  - apply of_steps_quiet, steps_backup_steps.
  - destruct (value _); repeat constructor.
Qed.

Lemma failed_with_surfaced (n : nat) (m : string) (evs : list Event) :
  failed_with (S (S n)) m evs -> surfaced m evs.
Proof.
  intros [before ->]. split; apply in_or_app; right; cbn; tauto.
Qed.

End WithWorld.

End ScheduleFacts.

Import ScheduleFacts.

Import VolumeFacts Stages PipelineFacts Hosts.

(** * The claims *)

(** ** Data volume lookup *)

Lemma docker_host_answers (ms : list Mount) :
  answers_inspect (docker_host "homebox" ms) "homebox" ms.
Proof.
  intros w t Ht. cbn in Ht.
  destruct Ht as [<-|[<-|[<-|[]]]]; reflexivity.
Qed.

(** Without a mount on /data the lookup is the fallback query on all
    sources. *)
Lemma volume_path_without_data {World : Type}
      (exec_command : World -> string -> World * ExecResult)
      (w : World) (a : App) (c : Container) (ms : list Mount) :
  answers_inspect exec_command (name c) ms ->
  homebox_container a = Some c ->
  filter is_data ms = [] ->
  value (_get_volume_path exec_command (w, a)) = inr (fallback_value ms).
Proof.
  intros H Hc Hf.
  rewrite (volume_path_value exec_command (name c) ms H w a c Hc eq_refl).
  rewrite Hf. cbn [map String.concat strip lstrip rstrip truthy].
  rewrite andb_false_r. reflexivity.
Qed.

(** C1, the failing input: a container with two mounts, none on /data.
    The fallback template prints the sources without a separator, so the
    first line of the output is both sources joined, not the source of the
    first mount; with no mounts the lookup returns none and with one mount
    it returns that mount's source. *)
Theorem fallback_joins_all_sources :
  let lookup ms :=
    value (_get_volume_path (docker_host "homebox" ms)
                            (tt, app_selected false None)) in
  filter is_data [config_mount; cache_mount] = []
  /\ lookup [config_mount; cache_mount]
     = inr (Some "/srv/homebox/config/srv/homebox/cache")
  /\ lookup [config_mount; cache_mount] <> inr (Some (Source config_mount))
  /\ lookup [config_mount] = inr (Some (Source config_mount))
  /\ lookup [] = inr None.
Proof.
  cbv zeta. repeat split; try reflexivity; vm_compute; discriminate.
Qed.

(** C2 (amended): when exactly one mount has destination /data and its
    source is not empty and has no white space at either end, the lookup
    returns exactly that source, whatever other mounts exist. *)
Theorem data_mount_source_is_returned :
  forall (World : Type)
         (exec_command : World -> string -> World * ExecResult)
         (w : World) (a : App) (c : Container)
         (ms : list Mount) (m : Mount),
    answers_inspect exec_command (name c) ms ->
    homebox_container a = Some c ->
    filter is_data ms = [m] ->
    Source m <> EmptyString ->
    strip (Source m) = Source m ->
    value (_get_volume_path exec_command (w, a)) = inr (Some (Source m)).
Proof.
  intros World exec_command w a c ms m H Hc Hf Hne Hclean.
  rewrite (volume_path_value exec_command (name c) ms H w a c Hc eq_refl).
  rewrite Hf. cbn [map String.concat]. rewrite Hclean.
  assert (Hin : In m (filter is_data ms)) by (rewrite Hf; left; reflexivity).
  apply filter_In in Hin. destruct Hin as [Hin Hd].
  change (inspect_output ms mounts_json) with (json_mounts ms ++ nl).
  rewrite (contains_app_l _ _ nl (json_mounts_mentions_data ms m Hin Hd)).
  apply truthy_true in Hne. rewrite Hne. reflexivity.
Qed.

Lemma data_mount_source_is_returned_witness :
  value (_get_volume_path
           (docker_host "homebox" [config_mount; data_volume; cache_mount])
           (tt, app_selected false None))
  = inr (Some "/var/lib/docker/volumes/homebox/_data").
Proof.
  apply (data_mount_source_is_returned unit
           (docker_host "homebox" [config_mount; data_volume; cache_mount])
           tt (app_selected false None) homebox_c
           [config_mount; data_volume; cache_mount] data_volume).
  - apply docker_host_answers.
  - reflexivity.
  - reflexivity.
  - discriminate.
  - reflexivity.
Defined.

(** C2 as stated fails: a tmpfs mounted on /data has an empty source, the
    lookup falls back and returns the source of another mount. *)
Lemma data_mount_with_empty_source_counterexample :
  ~ (forall (World : Type)
            (exec_command : World -> string -> World * ExecResult)
            (w : World) (a : App) (c : Container)
            (ms : list Mount) (m : Mount),
        answers_inspect exec_command (name c) ms ->
        homebox_container a = Some c ->
        filter is_data ms = [m] ->
        value (_get_volume_path exec_command (w, a))
        = inr (Some (Source m))).
Proof.
  intros claim.
  specialize (claim unit (docker_host "homebox" [data_tmpfs; config_mount])
                    tt (app_selected false None) homebox_c
                    [data_tmpfs; config_mount] data_tmpfs
                    (docker_host_answers _) eq_refl eq_refl).
  vm_compute in claim. discriminate claim.
Qed.

(** ** Container scan *)

Lemma parse_line_one (line : string) (c : Container) :
  parse_line line = [c] <->
  line <> EmptyString
  /\ line = id c ++ "|" ++ name c ++ "|" ++ image c
  /\ count pipe (id c) = 0 /\ count pipe (name c) = 0
  /\ count pipe (image c) = 0
  /\ display c = name c ++ " (" ++ image c ++ ")".
Proof.
  split.
  - intros E.
    assert (Hin : In c (parse_line line)) by (rewrite E; left; reflexivity).
    apply parse_line_in in Hin. destruct Hin as [L F].
    split; [|split; [exact L | exact F]].
    intros ->. discriminate E.
  - intros [_ [-> [Hi [Hn [Hm Hd]]]]].
    unfold parse_line.
    assert (S : split pipe (id c ++ "|" ++ name c ++ "|" ++ image c)
                = [id c; name c; image c]).
    { change (id c ++ "|" ++ name c ++ "|" ++ image c)
        with (join pipe [id c; name c; image c]).
      apply split_join; [discriminate|]. repeat constructor; assumption. }
    rewrite S.
    replace (truthy (id c ++ "|" ++ name c ++ "|" ++ image c)) with true
      by (destruct (id c); reflexivity).
    destruct c as [i n m d]. cbn [id name image display] in *. subst d.
    reflexivity.
Qed.

Lemma parse_line_none (line : string) :
  parse_line line = [] <->
  line = EmptyString \/ List.length (split pipe line) <> 3.
Proof.
  unfold parse_line. destruct line as [|a line]; cbn [truthy].
  - split; [left; reflexivity | reflexivity].
  - destruct (split pipe (String a line)) as [|f1 [|f2 [|f3 [|f4 rest]]]];
      cbn [List.length]; split; intros H;
      try reflexivity; try discriminate H;
      try (right; discriminate);
      destruct H as [H|H]; try discriminate H; contradiction H; reflexivity.
Qed.

Lemma parse_line_short (line : string) : List.length (parse_line line) <= 1.
Proof.
  unfold parse_line. destruct (truthy line); [|cbn; lia].
  destruct (split pipe line) as [|f1 [|f2 [|f3 [|f4 rest]]]]; cbn; lia.
Qed.

Lemma listing_lines_plain (output : string) :
  Forall (fun line => count newline line = 0) (listing_lines output).
Proof. apply split_fields. Qed.

(** C9: the lines of the listing are those of the output without the
    white space around it.  A line makes a container exactly when it is
    not empty and is [id|name|image] with no pipe inside the three fields,
    and the container carries these fields and is displayed as
    [name (image)]; it makes none exactly when it is empty or does not
    split at the pipes into three fields, that is when it has not two
    pipes; no line makes more than one.  The containers of the scan are
    those of the lines, in the order of the lines, and whatever the
    lines and the exit status the scan does not raise: it hands the
    containers over when there are any. *)
Theorem listing_lines_make_containers :
  forall output : string,
    let lines := listing_lines output in
    let text := join newline lines in
    (exists l r,
        output = l ++ text ++ r /\ blank l = true /\ blank r = true)
    /\ (forall c t, text = String c t -> is_space c = false)
    /\ (forall t c, text = t ++ String c EmptyString -> is_space c = false)
    /\ lines <> []
    /\ Forall (fun line => count newline line = 0) lines
    /\ (forall line c,
          parse_line line = [c] <->
          line <> EmptyString
          /\ line = id c ++ "|" ++ name c ++ "|" ++ image c
          /\ count pipe (id c) = 0 /\ count pipe (name c) = 0
          /\ count pipe (image c) = 0
          /\ display c = name c ++ " (" ++ image c ++ ")")
    /\ (forall line,
          parse_line line = [] <->
          line = EmptyString \/ List.length (split pipe line) <> 3)
    /\ (forall line, List.length (split pipe line) = S (count pipe line))
    /\ (forall line, List.length (parse_line line) <= 1)
    /\ parse_containers output = flat_map parse_line lines
    /\ (forall (World : Type)
               (exec_command : World -> string -> World * ExecResult)
               (in_time : nat) (w : World) (a : App)
               (code : Z) (error : string),
          snd (exec_command w scan_command) = Completed code output error ->
          let r := _do_scan_containers exec_command in_time (w, a) in
          value r = inr tt
          /\ (parse_containers output <> [] ->
              In (UpdateContainerLists (parse_containers output))
                 (events r))).
Proof.
  intros output lines text.
  assert (T : text = strip output)
    by (subst text lines; unfold listing_lines; apply join_split).
  split; [rewrite T; apply strip_split|].
  split; [rewrite T; apply strip_first|].
  split; [rewrite T; apply strip_last|].
  split; [apply split_not_nil|].
  split; [apply listing_lines_plain|].
  split; [exact parse_line_one|].
  split; [exact parse_line_none|].
  split; [intros line; apply split_length|].
  split; [exact parse_line_short|].
  split; [reflexivity|].
  intros World exec_command in_time w a code error H r. subst r.
  destruct (scan_of_result exec_command in_time w a code output error H)
    as [E V].
  split; [exact V|]. intros N. rewrite E.
  right. apply in_or_app. right.
  destruct (parse_containers output); [contradiction | left; reflexivity].
Qed.

(** C4: the scan never reads the exit status of the listing.  Whatever
    the status, it logs a non-empty standard error as a warning, reads the
    containers from the standard output, reports the warning
    "No Containers" when there are none and hands them over otherwise; it
    does not end in its handler and does not raise.  On the same result
    [_execute_command], through which every other command of the program
    goes, raises when the status is not 0. *)
Theorem scan_ignores_exit_status :
  forall (World : Type)
         (exec_command : World -> string -> World * ExecResult)
         (in_time : nat) (w : World) (a : App)
         (code : Z) (output error : string),
    snd (exec_command w scan_command) = Completed code output error ->
    let r := _do_scan_containers exec_command in_time (w, a) in
    events r
    = (Remote scan_command (Completed code output error)
       :: (if truthy error then [LogOutput ("Warning: " ++ error)] else [])
       ++ match parse_containers output with
          | [] => [ShowWarning "No Containers"
                               "No running Docker containers found";
                   Configure refresh_btn "normal"]
          | containers => [UpdateContainerLists containers]
          end)%list
    /\ ~ scan_failed (events r)
    /\ value r = inr tt
    /\ (code <> 0%Z ->
        value (_execute_command exec_command scan_command (w, a))
        = inl ("Command failed: " ++ scan_command ++ nl ++ error)).
Proof.
  intros World exec_command in_time w a code output error H r.
  assert (E : events r
    = (Remote scan_command (Completed code output error)
       :: (if truthy error then [LogOutput ("Warning: " ++ error)] else [])
       ++ match parse_containers output with
          | [] => [ShowWarning "No Containers"
                               "No running Docker containers found";
                   Configure refresh_btn "normal"]
          | containers => [UpdateContainerLists containers]
          end)%list
    /\ value r = inr tt).
  { subst r.
    exact (scan_of_result exec_command in_time w a code output error H). }
  destruct E as [E V]. split; [exact E|]. split; [|split; [exact V|]].
  - rewrite E. intros [e He].
    destruct He as [He|He]; [discriminate He|].
    apply in_app_or in He. destruct He as [He|He].
    + destruct (truthy error); cbn [In] in He;
        [destruct He as [He|[]]; discriminate He | contradiction].
    + destruct (parse_containers output); cbn [In] in He;
        repeat (destruct He as [He|He]; [discriminate He|]); contradiction.
  - intros N.
    cbv [_execute_command bind remote raise ret events final value].
    change (fst (w, a)) with w. rewrite H.
    destruct (Z.eqb_spec code 0) as [Z|_]; [contradiction | reflexivity].
Qed.

Lemma scan_ignores_exit_status_witness :
  let host := listing_host 1 EmptyString "permission denied" in
  let r := _do_scan_containers host 0 (tt, app0) in
  events r
  = [Remote scan_command (Completed 1 EmptyString "permission denied");
     LogOutput "Warning: permission denied";
     ShowWarning "No Containers" "No running Docker containers found";
     Configure refresh_btn "normal"]
  /\ ~ scan_failed (events r)
  /\ value r = inr tt
  /\ (1%Z <> 0%Z ->
      value (_execute_command host scan_command (tt, app0))
      = inl ("Command failed: " ++ scan_command ++ nl
             ++ "permission denied")).
Proof.
  apply (scan_ignores_exit_status unit
           (listing_host 1 EmptyString "permission denied")
           0 tt app0 1%Z EmptyString "permission denied").
  reflexivity.
Defined.

(** ** Deleting the archive kept on the server *)

(** C8: without a retained archive path the deletion only shows the
    warning "No server-side backup to delete": no remote command is
    issued, nothing is asked, and the state is left as it was. *)
Theorem delete_without_backup_only_warns :
  forall (World : Type)
         (exec_command : World -> string -> World * ExecResult)
         (response : bool) (s : World * App),
    remote_backup_path (snd s) = None ->
    let r := delete_server_backup exec_command response s in
    events r = [ShowWarning "No Backup" "No server-side backup to delete"]
    /\ commands (events r) = []
    /\ final r = s
    /\ value r = inr tt.
Proof.
  intros World exec_command response [w a] H r. subst r.
  cbn [snd] in H.
  cbv [delete_server_backup bind get_app events final value].
  change (snd (w, a)) with a. rewrite H. repeat split.
Qed.

Lemma delete_without_backup_only_warns_witness :
  let r := delete_server_backup (docker_host "homebox" [data_volume]) true
                                (tt, app_ready false None) in
  events r = [ShowWarning "No Backup" "No server-side backup to delete"]
  /\ commands (events r) = []
  /\ final r = (tt, app_ready false None)
  /\ value r = inr tt.
Proof.
  apply (delete_without_backup_only_warns unit
           (docker_host "homebox" [data_volume]) true
           (tt, app_ready false None)).
  reflexivity.
Defined.

(** ** The backup pipeline *)

(** C6: in every run of a backup, from the press of the button to the end
    of the worker and whenever Tk runs the callbacks, the values given to
    the progress bar never decrease, and 100 is among them only when the
    run logged its success and the handler of failures reported
    nothing. *)
Theorem progress_never_decreases :
  forall (World : Type)
         (exec_command : World -> string -> World * ExecResult)
         (scp_get : World -> string -> string -> World * option string)
         (in_time : nat) (timestamp : string) (s : World * App),
    let evs := events (backup_run exec_command scp_get in_time timestamp s) in
    Sorted Z.le (progress_values evs)
    /\ (In 100%Z (progress_values evs) -> succeeded evs /\ ~ failed evs).
Proof.
  intros World exec_command scp_get in_time timestamp s evs. subst evs.
  pose proof (backup_run_late exec_command scp_get in_time timestamp s) as L.
  destruct (progress_of_run exec_command scp_get timestamp s) as [Hs Hi].
  rewrite (late_progress _ _ L). split; [exact Hs|].
  intros H. destruct (Hi H) as [S F]. split.
  - exact (proj2 (late_succeeded _ _ L) S).
  - intros Ff. exact (F (late_failed _ _ L Ff)).
Qed.

(** C5: when the database dump completes with an exit status other than
    0, the run has no event of the stages after it (media check and copy,
    listing and copy of the other files, archive, removal of the
    workspace, download), it does not log success, and it ends in the
    handler of failures, which caught a message that contains the standard
    error of the dump.  Whether that message gets on the screen depends on
    when Tk runs the two callbacks of the handler that read [e]: when both
    run before the handler ends, the message is in the log and in the
    error box; when both run after it, as callbacks scheduled for the main
    loop from the worker thread usually do, they find [e] unbound and
    raise NameError, and no failure is on the screen. *)
Theorem dump_failure_message_can_be_lost :
  forall (World : Type)
         (exec_command : World -> string -> World * ExecResult)
         (scp_get : World -> string -> string -> World * option string)
         (in_time : nat) (timestamp : string) (s : World * App)
         (pg temp_dir : string) (code : Z) (output error : string),
    let evs :=
      events (_do_backup exec_command scp_get in_time timestamp s) in
    In (Remote (dump_command pg temp_dir) (Completed code output error)) evs ->
    code <> 0%Z ->
    let message :=
      "Command failed: " ++ dump_command pg temp_dir ++ nl ++ error in
    Forall (fun e => later_stage e = false) evs
    /\ ~ succeeded evs
    /\ failed_with in_time message evs
    /\ contains error message = true
    /\ (2 <= in_time -> surfaced message evs)
    /\ (in_time = 0 ->
        nothing_surfaced evs /\ In (CallbackNameError "e") evs).
Proof.
  intros World exec_command scp_get in_time timestamp s
         pg temp_dir code output error evs Hin Hcode message.
  pose proof (do_backup_late exec_command scp_get in_time timestamp s) as L.
  assert (Hin2 := late_in_l _ _ _ L Hin ltac:(discriminate)).
  destruct (dump_failure_of_run exec_command scp_get timestamp s
              pg temp_dir code output error Hin2 Hcode)
    as [Hl [Hf [Hc Hs]]].
  assert (Fw : failed_with in_time message evs)
    by (apply failed_with_schedule; exact Hf).
  split; [apply (late_forall _ _ _ L); [reflexivity | exact Hl]|].
  split; [intros S; exact (Hs (proj1 (late_succeeded _ _ L) S))|].
  split; [exact Fw|]. split; [exact Hc|]. split.
  - intros Hn. destruct in_time as [|[|n]]; [lia | lia |].
    apply (failed_with_surfaced n), Fw.
  - intros E. subst in_time. split; [apply late_run_is_quiet|].
    destruct Fw as [before Fw]. subst evs. rewrite Fw.
    apply in_or_app. right. left. reflexivity.
Qed.

Lemma dump_failure_message_can_be_lost_witness :
  let error := "pg_dump: error: connection to server failed" in
  let evs :=
    events (_do_backup (dump_failing_host error) scp_ok 0 "20240101_120000"
                       (tt, app_selected false None)) in
  let message :=
    "Command failed: "
    ++ dump_command "homebox-db" "/tmp/homebox_backup_20240101_120000"
    ++ nl ++ error in
  Forall (fun e => later_stage e = false) evs
  /\ ~ succeeded evs
  /\ failed_with 0 message evs
  /\ contains error message = true
  /\ (2 <= 0 -> surfaced message evs)
  /\ (0 = 0 -> nothing_surfaced evs /\ In (CallbackNameError "e") evs).
Proof.
  apply (dump_failure_message_can_be_lost unit
           (dump_failing_host "pg_dump: error: connection to server failed")
           scp_ok 0 "20240101_120000" (tt, app_selected false None)
           "homebox-db" "/tmp/homebox_backup_20240101_120000"
           1%Z EmptyString "pg_dump: error: connection to server failed").
  - vm_compute. repeat first [left; reflexivity | right].
  - discriminate.
Defined.

(** C7: when the other files are not included, no command of the run
    lists the volume and none creates the directory for other files; the
    commands of the run are those of the volume lookup followed by
    commands of the fixed pipeline, from its first on and in its order:
    the creation of the workspace, the dump, the media check, the media
    copy exactly when the check found the attachments, the archive and
    the removal of the workspace.  The run issues all of them when no
    command fails, and stops short of the rest otherwise. *)
Theorem no_other_files_commands :
  forall (World : Type)
         (exec_command : World -> string -> World * ExecResult)
         (scp_get : World -> string -> string -> World * option string)
         (in_time : nat) (timestamp : string) (s : World * App),
    backup_other_var (snd s) = false ->
    let evs :=
      events (_do_backup exec_command scp_get in_time timestamp s) in
    let lookup := _get_volume_path exec_command s in
    Forall (plain_command timestamp) (commands evs)
    /\ exists media issued rest,
        commands evs = (commands (events lookup) ++ issued)%list
        /\ fixed_pipeline timestamp (usable (value lookup))
                          (postgres_container (snd s)) media
           = (issued ++ rest)%list
        /\ (all_ok evs = true -> rest = [])
        /\ (media = true <->
            exists v output error,
              In (Remote (media_check_command v) (Completed 0 output error))
                 evs
              /\ strip output = "exists").
Proof.
  intros World exec_command scp_get in_time timestamp s H evs lookup.
  pose proof (do_backup_late exec_command scp_get in_time timestamp s) as L.
  destruct (fixed_commands_of_run exec_command scp_get timestamp s H)
    as [media [issued [rest [Hc [Hf [Ha Hm]]]]]].
  subst evs lookup. rewrite (late_commands _ _ L), (late_all_ok _ _ L).
  split.
  - rewrite Hc. apply Forall_app. split.
    + apply lookup_commands_plain.
    + pose proof (fixed_pipeline_plain timestamp
                    (usable (value (_get_volume_path exec_command s)))
                    (postgres_container (snd s)) media) as P.
      rewrite Hf in P. apply Forall_app in P. apply P.
  - exists media, issued, rest.
    split; [exact Hc|]. split; [exact Hf|]. split; [exact Ha|].
    apply (iff_trans Hm).
    split; intros [v [o [e [Hin Hs]]]]; exists v, o, e;
      (split; [|exact Hs]).
    + apply (late_in_r _ _ _ L Hin). reflexivity.
    + apply (late_in_l _ _ _ L Hin). discriminate.
Qed.

Lemma no_other_files_commands_witness :
  let host := media_host ("exists" ++ nl) ok in
  let s := (tt, app_selected false None) in
  let evs := events (_do_backup host scp_ok 0 "20240101_120000" s) in
  let lookup := _get_volume_path host s in
  Forall (plain_command "20240101_120000") (commands evs)
  /\ exists media issued rest,
      commands evs = (commands (events lookup) ++ issued)%list
      /\ fixed_pipeline "20240101_120000" (usable (value lookup))
                        (postgres_container (snd s)) media
         = (issued ++ rest)%list
      /\ (all_ok evs = true -> rest = [])
      /\ (media = true <->
          exists v output error,
            In (Remote (media_check_command v) (Completed 0 output error))
               evs
            /\ strip output = "exists").
Proof.
  apply (no_other_files_commands unit (media_host ("exists" ++ nl) ok) scp_ok
           0 "20240101_120000" (tt, app_selected false None)).
  reflexivity.
Defined.

Lemma media_host_or_true (check_output output error : string) :
  or_true_succeeds (media_host check_output (Completed 0 output error)).
Proof.
  intros w c. unfold media_host. cbn [snd].
  destruct (starts_with "docker inspect " (c ++ " || true")); [eauto|].
  destruct (starts_with "[ -d " (c ++ " || true")); [eauto|].
  destruct (starts_with "cp -r " (c ++ " || true")); [eauto|].
  unfold ok. eauto.
Qed.

(** C10: on a remote shell that gives exit status 0 to every command line
    ending in [|| true], whenever the media check finds the attachments
    the copy, which is such a command line, completes with status 0, the
    media stage logs its completion, the run goes on to the progress value
    60, and when the other files are not included it issues the archive
    command; this whenever Tk runs the callbacks. *)
Theorem media_copy_never_aborts :
  forall (World : Type)
         (exec_command : World -> string -> World * ExecResult)
         (scp_get : World -> string -> string -> World * option string)
         (in_time : nat) (timestamp : string) (s : World * App)
         (v output error : string),
    or_true_succeeds exec_command ->
    let evs :=
      events (_do_backup exec_command scp_get in_time timestamp s) in
    In (Remote (media_check_command v) (Completed 0 output error)) evs ->
    strip output = "exists" ->
    let backup_name := "homebox_backup_" ++ timestamp in
    (exists c, media_copy_command v ("/tmp/" ++ backup_name) = c ++ " || true")
    /\ (exists output' error',
           In (Remote (media_copy_command v ("/tmp/" ++ backup_name))
                      (Completed 0 output' error')) evs)
    /\ In (LogOutput "Media files backup completed") evs
    /\ In (ProgressSet 60) evs
    /\ (backup_other_var (snd s) = false ->
        exists r, In (Remote (archive_command backup_name) r) evs).
Proof.
  intros World exec_command scp_get in_time timestamp s v output error shell
         evs Hin Hout backup_name.
  split; [eexists; apply media_copy_command_or_true|].
  pose proof (do_backup_late exec_command scp_get in_time timestamp s) as L.
  assert (Hin2 := late_in_l _ _ _ L Hin ltac:(discriminate)).
  destruct (media_copy_of_run exec_command scp_get shell timestamp s
              v output error Hin2 Hout)
    as [[o [e Hc]] [Hm [Hp Ha]]].
  split; [exists o, e; apply (late_in_r _ _ _ L Hc); reflexivity|].
  split; [apply (late_in_r _ _ _ L Hm); reflexivity|].
  split; [apply (late_in_r _ _ _ L Hp); reflexivity|].
  intros Hb. destruct (Ha Hb) as [r Hr]. exists r.
  apply (late_in_r _ _ _ L Hr). reflexivity.
Qed.

Lemma media_copy_never_aborts_witness :
  let evs :=
    events (_do_backup (media_host ("exists" ++ nl) ok) scp_ok 0
                       "20240101_120000" (tt, app_selected false None)) in
  let backup_name := "homebox_backup_" ++ "20240101_120000" in
  (exists c,
      media_copy_command "/srv/homebox/data" ("/tmp/" ++ backup_name)
      = c ++ " || true")
  /\ (exists output' error',
         In (Remote (media_copy_command "/srv/homebox/data"
                                        ("/tmp/" ++ backup_name))
                    (Completed 0 output' error')) evs)
  /\ In (LogOutput "Media files backup completed") evs
  /\ In (ProgressSet 60) evs
  /\ (backup_other_var (snd (tt, app_selected false None)) = false ->
      exists r, In (Remote (archive_command backup_name) r) evs).
Proof.
  apply (media_copy_never_aborts unit (media_host ("exists" ++ nl) ok) scp_ok
           0 "20240101_120000" (tt, app_selected false None)
           "/srv/homebox/data" ("exists" ++ nl) EmptyString).
  - apply media_host_or_true.
  - vm_compute. repeat first [left; reflexivity | right].
  - reflexivity.
Defined.

(** ** The archive path kept for deletion *)

(** C3 (amended): starting a backup and scanning leave the retained
    archive path as it is.  A run of the worker sets it to the path of the
    new archive when the archive command and the removal of the workspace
    both completed with exit status 0, and leaves it as it is otherwise.
    The deletion clears it when there is a path, the user confirmed and
    [rm -f] on it completed with exit status 0; without a path, when the
    user declined, and when the command raised or gave another exit
    status, it leaves it as it is. *)
Theorem archive_path_changes :
  forall (World : Type)
         (exec_command : World -> string -> World * ExecResult)
         (scp_get : World -> string -> string -> World * option string)
         (in_time : nat) (timestamp : string) (response : bool)
         (s : World * App),
    let kept := remote_backup_path (snd s) in
    remote_backup_path (snd (final (start_backup s))) = kept
    /\ remote_backup_path
         (snd (final (_do_scan_containers exec_command in_time s)))
       = kept
    /\ (let r := _do_backup exec_command scp_get in_time timestamp s in
        let backup_name := "homebox_backup_" ++ timestamp in
        (archived backup_name (events r) ->
         remote_backup_path (snd (final r))
         = Some ("/tmp/" ++ backup_name ++ ".tar.gz"))
        /\ (~ archived backup_name (events r) ->
            remote_backup_path (snd (final r)) = kept))
    /\ (let r := delete_server_backup exec_command response s in
        remote_backup_path (snd (final r))
        = match kept with
          | Some path =>
              if truthy path && response then
                match snd (exec_command (fst s) ("rm -f " ++ path)) with
                | Completed exit_status _ _ =>
                    if (exit_status =? 0)%Z then None else kept
                | Raised _ => kept
                end
              else kept
          | None => None
          end).
Proof.
  intros World exec_command scp_get in_time timestamp response s kept.
  split; [exact (start_backup_keeps_path s)|].
  split; [exact (scan_keeps_path exec_command in_time s)|].
  split.
  - cbv zeta.
    pose proof (do_backup_late exec_command scp_get in_time timestamp s) as L.
    rewrite (do_backup_final exec_command scp_get in_time timestamp s).
    pose proof (archive_path_of_run exec_command scp_get timestamp s) as P.
    unfold wp in P. cbv zeta in P. destruct P as [P1 P2]. split.
    + intros A. exact (P1 (proj1 (late_archived _ _ _ L) A)).
    + intros A. apply P2. intros B.
      exact (A (proj2 (late_archived _ _ _ L) B)).
  - pose proof (delete_path exec_command response s) as D.
    unfold wp in D. cbv zeta. rewrite D. subst kept.
    destruct (remote_backup_path (snd s)); reflexivity.
Qed.

(** C3 as stated fails: starting a new backup does not clear the path
    kept from the previous one. *)
Lemma new_job_keeps_archive_path_counterexample :
  ~ (forall (World : Type) (s : World * App),
        value (start_backup s) = inr true ->
        remote_backup_path (snd (final (start_backup s))) = None).
Proof.
  intros claim.
  specialize (claim unit
                (tt, app_ready false
                       (Some "/tmp/homebox_backup_20231231_235959.tar.gz"))
                eq_refl).
  vm_compute in claim. discriminate claim.
Qed.

(** * Further properties of the methods *)

(** ** Facts about the automatic selection *)

Module SelectionFacts.

Lemma first_mention_spec (needle : string) (cs : list Container) (i : nat) :
  match first_mention needle i cs with
  | Some k =>
      i <= k /\ k - i < length cs
      /\ (exists c, nth_error cs (k - i) = Some c /\ mentions needle c = true)
      /\ (forall j c, j < k - i -> nth_error cs j = Some c ->
                      mentions needle c = false)
  | None => forall c, In c cs -> mentions needle c = false
  end.
Proof.
  revert i. induction cs as [|c cs IH]; intros i; cbn [first_mention].
  - intros c [].
  - destruct (mentions needle c) eqn:E.
    + rewrite Nat.sub_diag. cbn [length nth_error].
      split; [lia|]. split; [lia|]. split; [eauto|].
      intros j c' Hj. lia.
    + specialize (IH (S i)).
      destruct (first_mention needle (S i) cs) as [k|].
      * destruct IH as [Hk [Hl [[c' [Hn Hm]] Hb]]].
        replace (k - i) with (S (k - S i)) by lia. cbn [length nth_error].
        split; [lia|]. split; [lia|]. split; [eauto|].
        intros [|j] c'' Hj Hc''; cbn [nth_error] in Hc''.
        -- injection Hc'' as <-. exact E.
        -- apply (Hb j c''); [lia | exact Hc''].
      * intros c' [<-|Hin]; [exact E | apply IH, Hin].
Qed.

Lemma auto_select_spec :
  forall (needle : string) (containers : list Container),
    containers <> [] ->
    let i := auto_select needle containers in
    i < length containers
    /\ ((exists c, nth_error containers i = Some c
                   /\ mentions needle c = true
                   /\ forall j c', j < i -> nth_error containers j = Some c' ->
                                   mentions needle c' = false)
        \/ (i = 0 /\ forall c, In c containers -> mentions needle c = false)).
Proof.
  intros needle cs Hne i. subst i. unfold auto_select.
  pose proof (first_mention_spec needle cs 0) as H.
  destruct (first_mention needle 0 cs) as [k|].
  - rewrite Nat.sub_0_r in H. destruct H as [_ [Hl [[c [Hn Hm]] Hb]]].
    split; [exact Hl|]. left. exists c. auto.
  - split; [destruct cs; [contradiction | cbn; lia]|]. right. auto.
Qed.

Lemma py_index_nat {A} (l : list A) (i : nat) :
  i < length l -> py_index l (Z.of_nat i) = nth_error l i.
Proof.
  intros H. unfold py_index.
  destruct (Z.leb_spec 0 (Z.of_nat i)); [|lia].
  destruct (Z.ltb_spec (Z.of_nat i) (Z.of_nat (length l))); [|lia].
  rewrite Nat2Z.id. reflexivity.
Qed.

Lemma parsed_display_truthy (output : string) (c : Container) :
  In c (parse_containers output) -> truthy (display c) = true.
Proof.
  intros H. unfold parse_containers in H. apply in_flat_map in H.
  destruct H as [line [_ H]]. unfold parse_line in H.
  destruct (truthy line); [|contradiction].
  destruct (split pipe line) as [|a [|b [|d [|e l]]]]; try contradiction.
  destruct H as [<-|[]]. cbn [display]. destruct b; reflexivity.
Qed.

Lemma nth_display (cs : list Container) (i : nat) (c : Container) :
  nth_error cs i = Some c -> nth i (map display cs) EmptyString = display c.
Proof.
  revert i. induction cs as [|x cs IH]; intros [|i] H; try discriminate H.
  - injection H as ->. reflexivity.
  - cbn [map nth]. apply IH, H.
Qed.

(** [start_backup] on a form with both boxes filled and indices in
    range. *)
Lemma start_backup_selects {World : Type} (w : World) (a : App)
      (h p : Container) :
  truthy (homebox_container_var a) = true ->
  truthy (postgres_container_var a) = true ->
  py_index (containers_info a) (homebox_current a) = Some h ->
  py_index (containers_info a) (postgres_current a) = Some p ->
  wp start_backup
     (fun evs s' v =>
        v = inr true
        /\ homebox_container (snd s') = Some h
        /\ postgres_container (snd s') = Some p
        /\ commands evs = []) (w, a).
Proof.
  intros Th Tp Hh Hp. unfold start_backup.
  do 2 run_step. rewrite Th, Tp, Hh, Hp. cbn [negb orb]. wp_simpl.
  repeat run_step. repeat split; reflexivity.
Qed.

End SelectionFacts.

Import SelectionFacts.

(** ** Facts about single methods *)

Module MethodFacts.

Lemma wp_run {World A : Type} (c : @Run.M World A)
      (Q : list Event -> World * App -> string + A -> Prop) (s : World * App) :
  Q (events (c s)) (final (c s)) (value (c s)) -> wp c Q s.
Proof. exact (fun H => H). Qed.

Lemma other_copy_command_or_true (v t d : string) :
  other_copy_command v t d
  = ("cp -r " ++ (v ++ "/" ++ d) ++ " " ++ (t ++ "/other-files/")
     ++ " 2>/dev/null") ++ " || true".
Proof.
  unfold other_copy_command. cbv zeta.
  rewrite !append_assoc. reflexivity.
Qed.

(** ** [start_backup] *)

Lemma start_backup_contract {World : Type} (s : World * App) :
  wp (World := World) start_backup
     (fun evs s' v =>
        let a := snd s in
        let selected :=
          truthy (homebox_container_var a)
          && truthy (postgres_container_var a) in
        commands evs = []
        /\ fst s' = fst s
        /\ (selected = false ->
            evs = [ShowError "Error" "Please select both containers"]
            /\ s' = s /\ v = inr false)
        /\ (v = inr true <->
            selected = true
            /\ (exists h p,
                   py_index (containers_info a) (homebox_current a) = Some h
                   /\ py_index (containers_info a) (postgres_current a)
                      = Some p
                   /\ homebox_container (snd s') = Some h
                   /\ postgres_container (snd s') = Some p))
        /\ (v = inr true ->
            In (Configure backup_btn "disabled") evs
            /\ progress_values evs = [0%Z])) s.
Proof.
  destruct s as [w a]. unfold start_backup.
  repeat run_step; cbn [snd fst] in *;
    (split; [reflexivity|]); (split; [reflexivity|]).
  - split; [intros _; repeat split; reflexivity|].
    split; [|intros E; discriminate E].
    split; [intros E; discriminate E|].
    intros [E _]. apply orb_true_iff in Heqb.
    apply andb_prop in E. destruct E as [E1 E2].
    rewrite E1, E2 in Heqb. destruct Heqb as [E|E]; discriminate E.
  - apply orb_false_iff in Heqb. destruct Heqb as [E1 E2].
    apply negb_false_iff in E1, E2. rewrite E1, E2.
    split; [intros E; discriminate E|].
    split; [|intros _; split; [cbn; tauto | reflexivity]].
    split; [intros _|reflexivity].
    split; [reflexivity|]. exists c, c0. repeat split; assumption.
  - apply orb_false_iff in Heqb. destruct Heqb as [E1 E2].
    apply negb_false_iff in E1, E2. rewrite E1, E2.
    split; [intros E; discriminate E|].
    split; [|intros E; discriminate E].
    split; [intros E; discriminate E|].
    intros [_ [h [p [_ [Hp _]]]]]. congruence.
  - apply orb_false_iff in Heqb. destruct Heqb as [E1 E2].
    apply negb_false_iff in E1, E2. rewrite E1, E2.
    split; [intros E; discriminate E|].
    split; [|intros E; discriminate E].
    split; [intros E; discriminate E|].
    intros [_ [h [p [Hh _]]]]. congruence.
Qed.

Section WithWorld.

Context {World : Type}.
Variable exec_command : World -> string -> World * ExecResult.
Variable scp_get : World -> string -> string -> World * option string.

(** ** [_execute_command] *)

Lemma execute_command_contract (command : string) (s : World * App) :
  wp (_execute_command exec_command command)
     (fun evs s' v =>
        snd s' = snd s
        /\ commands evs = [command]
        /\ match snd (exec_command (fst s) command) with
           | Raised e => v = inl e
           | Completed code output error =>
               if (code =? 0)%Z then v = inr output
               else exists message,
                   v = inl message
                   /\ contains command message = true
                   /\ contains error message = true
           end) s.
Proof.
  destruct s as [w a]. run_step; cbn [fst snd] in *;
    match goal with H : exec_command _ _ = _ |- _ => rewrite H end;
    cbn [snd]; (split; [reflexivity|]); (split; [reflexivity|]).
  - reflexivity.
  - destruct (Z.eqb_spec code 0) as [E|_]; [contradiction|].
    eexists. split; [reflexivity|]. split.
    + apply contains_app_r, contains_app_l, contains_refl.
    + repeat apply contains_app_r. apply contains_refl.
  - reflexivity.
Qed.

(** ** [delete_server_backup] *)

Lemma delete_contract (response : bool) (s : World * App) (path : string) :
  remote_backup_path (snd s) = Some path ->
  path <> EmptyString ->
  wp (delete_server_backup exec_command response)
     (fun evs s' v =>
        v = inr tt
        /\ In (AskYesNo "Confirm Delete"
                 ("Delete the backup archive from the server?" ++ nl ++ nl
                  ++ path) response) evs
        /\ commands evs = (if response then ["rm -f " ++ path] else [])
        /\ (response = false -> s' = s)
        /\ (forall output error,
               response = true ->
               snd (exec_command (fst s) ("rm -f " ++ path))
               = Completed 0 output error ->
               remote_backup_path (snd s') = None
               /\ In (Configure delete_btn "disabled") evs
               /\ In (ShowInfo "Success" "Server backup deleted successfully")
                     evs)
        /\ (forall code output error,
               response = true ->
               snd (exec_command (fst s) ("rm -f " ++ path))
               = Completed code output error ->
               code <> 0%Z ->
               snd s' = snd s
               /\ ~ In (Configure delete_btn "disabled") evs
               /\ In (ShowError "Error"
                        ("Failed to delete server backup:" ++ nl
                         ++ "Command failed: " ++ "rm -f " ++ path ++ nl
                         ++ error)) evs)) s.
Proof.
  destruct s as [w a]. cbn [snd]. intros Hp Hne.
  apply truthy_true in Hne.
  unfold delete_server_backup. do 2 run_step.
  rewrite Hp. wp_simpl. rewrite Hne. cbn [negb]. keep_post.
  destruct response; cbn [negb]; wp_simpl.
  all: repeat run_step; open_post; cbn [fst snd] in *;
    (split; [reflexivity|]); (split; [left; reflexivity|]);
    (split; [reflexivity|]);
    (split; [intros E; first [discriminate E | reflexivity]|]).
  all: split; intros; try discriminate;
    match goal with
    | H : exec_command _ _ = _, H' : snd (exec_command _ _) = _ |- _ =>
        rewrite H in H'; cbn [snd] in H'
    | _ => idtac
    end; try discriminate.
  all: try match goal with
    | H' : Completed _ _ _ = Completed _ _ _ |- _ =>
        injection H' as ? ? ?; subst
    end; try contradiction.
  all: split; [reflexivity|].
  all: first [ split; [find_event | find_event]
             | split; [intros Hin; split_in Hin | find_event] ].
Qed.

Lemma delete_without_path (response : bool) (s : World * App) :
  remote_backup_path (snd s) = None ->
  wp (delete_server_backup exec_command response)
     (fun evs s' _ =>
        evs = [ShowWarning "No Backup" "No server-side backup to delete"]
        /\ s' = s) s.
Proof.
  destruct s as [w a]. cbn [snd]. intros H.
  unfold delete_server_backup. do 2 run_step. rewrite H. wp_simpl.
  run_step. split; reflexivity.
Qed.

(** ** [_backup_other_files] *)

Section ErrorSuppression.

Hypothesis shell : or_true_succeeds exec_command.

Lemma other_copy_completes (w w' : World) (v t d : string) (r : ExecResult) :
  exec_command w (other_copy_command v t d) = (w', r) ->
  exists output error, r = Completed 0 output error.
Proof.
  intros H. rewrite other_copy_command_or_true in H.
  destruct (shell w ("cp -r " ++ (v ++ "/" ++ d) ++ " "
                     ++ (t ++ "/other-files/") ++ " 2>/dev/null"))
    as [output [error E]].
  rewrite H in E. cbn [snd] in E. eauto.
Qed.

Lemma copy_entries_commands (v t : string) (dirs : list string)
      (s : World * App) :
  wp (copy_entries exec_command v t dirs)
     (fun evs s' r =>
        r = inr tt /\ snd s' = snd s
        /\ commands evs
           = map (other_copy_command v t) (filter copied_entry dirs)
        /\ Forall (fun e => is_remote e = true) evs) s.
Proof.
  revert s. induction dirs as [|d dirs IH]; intros [w a];
    cbn [copy_entries filter map].
  - apply wp_ret. repeat split. constructor.
  - fold (copied_entry d). destruct (copied_entry d) eqn:E.
    + apply wp_bind. repeat wp_rule.
      1,2: match goal with
          | Hx : exec_command _ (other_copy_command _ _ _) = _ |- _ =>
              destruct (other_copy_completes _ _ _ _ _ _ Hx) as [? [? Hr]];
              first [ discriminate Hr | injection Hr as Hr; congruence ]
          end.
      eapply wp_consequence; [apply IH|].
      cbn [snd]. intros ev s' r [-> [Hs [Hc Hf]]].
      split; [reflexivity|]. split; [exact Hs|].
      rewrite app_nil_r. cbn [app commands map]. rewrite Hc.
      split; [reflexivity|]. constructor; [reflexivity | exact Hf].
    + apply wp_bind. wp_rule.
      eapply wp_consequence; [apply IH|].
      cbn [snd]. intros ev s' r [-> [Hs [Hc Hf]]].
      cbn [app]. repeat split; assumption.
Qed.

Lemma other_files_commands (v t : string) (s : World * App)
      (output error : string) :
  snd (exec_command (fst s) (list_command v)) = Completed 0 output error ->
  wp (_backup_other_files exec_command v t)
     (fun evs s' r =>
        r = inr tt
        /\ commands evs
           = list_command v
             :: map (other_copy_command v t)
                    (filter copied_entry (split newline (strip output)))
        /\ In (LogOutput "Other files backup completed") evs) s.
Proof.
  destruct s as [w a]. cbn [fst]. intros H.
  unfold _backup_other_files.
  apply wp_bind. run_step; cbn [fst] in *;
    match goal with Hx : exec_command _ _ = _ |- _ => rewrite Hx in H end;
    cbn [snd] in H; try discriminate H;
    try (injection H; intros; subst; try contradiction).
  apply wp_bind. eapply wp_consequence; [apply copy_entries_commands|].
  cbn [snd]. intros ev s' r [-> [Hs [Hc Hf]]].
  run_step. split; [reflexivity|].
  rewrite !commands_app. cbn [commands app]. rewrite Hc, app_nil_r.
  split; [reflexivity|]. find_event.
Qed.

End ErrorSuppression.

(** ** A container without a usable mount *)

Lemma no_volume_of_run (timestamp : string) (s : World * App) :
  value (_get_volume_path exec_command s) = inr None ->
  wp (_do_backup exec_command scp_get 2 timestamp)
     (fun evs s' _ =>
        failed_with 2 "Could not determine data volume path" evs
        /\ Forall (fun c => starts_with "docker inspect " c = true)
                  (commands evs)
        /\ snd s' = snd s) s.
Proof.
  destruct s as [w a]. intros H.
  pose proof (volume_path_summary exec_command (w, a)) as S.
  unfold wp in S. cbn [snd] in S. destruct S as [Sa So].
  unfold _do_backup, backup_steps. cbn [reads_e Nat.leb].
  repeat lazymatch goal with
         | |- wp (_get_volume_path _) _ _ => fail
         | _ => run_step
         end.
  apply wp_run. rewrite H. wp_simpl.
  repeat run_step. cbn [app].
  split; [repeat first [apply failed_with_handler | apply failed_with_cons]|].
  split; [|cbn [snd]; exact Sa].
  cbn [commands]. rewrite !commands_app. cbn [commands]. rewrite !app_nil_r.
  clear -So. induction So as [|e evs He _ IH]; [constructor|].
  destruct e; try discriminate He. cbn [commands].
  constructor; assumption.
Qed.

End WithWorld.

End MethodFacts.

Import MethodFacts.

(** ** Facts about whole runs of the worker *)

Module RunFacts.

Lemma ends_with_cons (e x : Event) (evs : list Event) :
  ends_with e evs -> ends_with e (x :: evs).
Proof. intros [before ->]. exists (x :: before). reflexivity. Qed.

Lemma ends_with_app (e : Event) (a b : list Event) :
  ends_with e b -> ends_with e (a ++ b).
Proof.
  intros [before ->]. exists (a ++ before)%list. apply app_assoc.
Qed.

Lemma ends_with_one (e : Event) : ends_with e [e].
Proof. exists []. reflexivity. Qed.

Ltac find_end :=
  repeat first [ apply ends_with_one | apply ends_with_cons
               | apply ends_with_app ].

Lemma only_remote_commands (p : string) (evs : list Event) :
  only_remote p evs ->
  Forall (fun c => starts_with p c = true) (commands evs).
Proof.
  induction 1 as [|e evs He _ IH]; [constructor|].
  destruct e; try discriminate He. cbn [commands].
  constructor; assumption.
Qed.

Lemma inspect_commands_no_copy (evs : list Event) :
  only_remote "docker inspect " evs ->
  Forall (fun c => starts_with "cp -r " c = false) (commands evs).
Proof.
  intros H. apply only_remote_commands in H.
  eapply Forall_impl; [|exact H]. cbn beta. intros c Hc.
  apply starts_with_inv in Hc. destruct Hc as [rest ->]. reflexivity.
Qed.

Section WithWorld.

Context {World : Type}.
Variable exec_command : World -> string -> World * ExecResult.
Variable scp_get : World -> string -> string -> World * option string.

Lemma terminal_state_of_run (timestamp : string) (s : World * App) :
  wp (_do_backup exec_command scp_get 2 timestamp)
     (fun evs _ v =>
        v = inr tt
        /\ ends_with (Configure backup_btn "normal") evs
        /\ (succeeded evs \/ failed evs)
        /\ ~ (succeeded evs /\ failed evs)) s.
Proof.
  destruct s as [w a]. keep_post.
  repeat run_step.
  all: open_post; split; [reflexivity|]; split; [find_end|].
  all: first
    [ split; [left; unfold succeeded; find_event|];
      intros [_ [m Hm]]; leaf_in Hm
    | split; [right; eexists; find_event|];
      intros [Hs _]; unfold succeeded in Hs; leaf_in Hs ].
Qed.

Lemma success_of_run (timestamp : string) (s : World * App) :
  wp (_do_backup exec_command scp_get 2 timestamp)
     (fun evs s' _ =>
        succeeded evs ->
        let backup_name := "homebox_backup_" ++ timestamp in
        let archive_path := "/tmp/" ++ backup_name ++ ".tar.gz" in
        let local_path :=
          path_join (save_path_var (snd s)) (backup_name ++ ".tar.gz") in
        progress_values evs = [5; 10; 20; 40; 60; 70; 75; 100]%Z
        /\ In (Transfer archive_path local_path None) evs
        /\ In (LogOutput ("Saved to: " ++ local_path)) evs
        /\ remote_backup_path (snd s') = Some archive_path
        /\ In (Configure delete_btn "normal") evs) s.
Proof.
  destruct s as [w a]. keep_post.
  repeat run_step.
  all: open_post; intros Hs; unfold succeeded in Hs; leaf_in Hs.
  all: clear Hs; cbv zeta.
  all: split; [count_progress; reflexivity|].
  all: split; [find_event|].
  all: split; [find_event|].
  all: split; [reflexivity | find_event].
Qed.

Lemma download_failure_of_run (timestamp : string) (s : World * App) :
  wp (_do_backup exec_command scp_get 2 timestamp)
     (fun evs s' _ =>
        forall remote_path local_path e,
          In (Transfer remote_path local_path (Some e)) evs ->
          let backup_name := "homebox_backup_" ++ timestamp in
          remote_path = "/tmp/" ++ backup_name ++ ".tar.gz"
          /\ local_path
             = path_join (save_path_var (snd s)) (backup_name ++ ".tar.gz")
          /\ failed_with 2 ("Download failed: " ++ e) evs
          /\ remote_backup_path (snd s') = Some remote_path
          /\ ~ In (Configure delete_btn "normal") evs
          /\ ~ In 100%Z (progress_values evs)) s.
Proof.
  destruct s as [w a]. keep_post.
  repeat run_step.
  all: open_post; intros remote_path local_path e' Hin; leaf_in Hin.
  all: injection Hin as <- <- <-; cbv zeta.
  all: split; [reflexivity|].
  all: split; [reflexivity|].
  all: split;
    [repeat first [apply failed_with_handler | apply failed_with_cons]|].
  all: split; [reflexivity|].
  all: split; [intros Hd; leaf_in Hd|].
  all: count_progress; cbn [app In]; intros Hp;
    repeat (destruct Hp as [Hp|Hp]; [discriminate Hp|]); contradiction.
Qed.

Lemma missing_media_of_run (timestamp : string) (s : World * App) :
  backup_other_var (snd s) = false ->
  wp (_do_backup exec_command scp_get 2 timestamp)
     (fun evs _ _ =>
        forall v output error,
          In (Remote (media_check_command v) (Completed 0 output error)) evs ->
          strip output <> "exists" ->
          Forall (fun c => starts_with "cp -r " c = false) (commands evs)
          /\ In (LogOutput "No media directory found, skipping...") evs
          /\ exists r,
              In (Remote (archive_command ("homebox_backup_" ++ timestamp)) r)
                 evs) s.
Proof.
  destruct s as [w a]. cbn [snd]. intros Hv. keep_post.
  repeat first [ rewrite Hv | run_step ].
  all: open_post; intros v output' error' Hin Hout; leaf_in Hin.
  all: apply remote_eq in Hin; destruct Hin as [Hc Hr];
    apply media_check_command_inj in Hc;
    injection Hr; intros; subst; try congruence.
  all: try match goal with
    | Hb : String.eqb (strip ?o) _ = true |- _ =>
        apply String.eqb_eq in Hb; contradiction
    end.
  all: split;
    [ repeat first [ progress cbn [app commands] | rewrite commands_app ];
      repeat first
        [ apply Forall_nil
        | apply inspect_commands_no_copy; assumption
        | apply Forall_app; split
        | apply Forall_cons; [reflexivity|] ] |].
  all: split; [find_event | eexists; find_event].
Qed.

End WithWorld.

End RunFacts.

Import RunFacts.

(** ** Stopping at the first failure *)

Module AbortFacts.

Lemma all_ok_app (a b : list Event) :
  all_ok (a ++ b) = all_ok a && all_ok b.
Proof. apply forallb_app. Qed.

Lemma failing_is_io (e : Event) : failing e = true -> is_io e = true.
Proof.
  destruct e as [c r|rp lp f| | | | | | | | |]; try discriminate;
    intros _; reflexivity.
Qed.

Lemma aborts_of_stops (evs tail : list Event) :
  stops_at_failure evs ->
  Forall (fun x => is_io x = false) tail ->
  aborts_at_failure (evs ++ tail).
Proof.
  intros Hs Ht before e after Heq Hf.
  assert (Hq : ~ In e tail).
  { intros Hin. rewrite Forall_forall in Ht. specialize (Ht e Hin).
    apply failing_is_io in Hf. congruence. }
  destruct Hs as [Hok|[b [f [-> [Hok Hff]]]]].
  - exfalso.
    assert (Hin : In e (evs ++ tail))
      by (rewrite Heq; apply in_or_app; right; left; reflexivity).
    apply in_app_or in Hin. destruct Hin as [Hin|Hin]; [|exact (Hq Hin)].
    rewrite (all_ok_in evs e Hok Hin) in Hf. discriminate Hf.
  - rewrite <- app_assoc in Heq. cbn [app] in Heq.
    apply app_eq_app in Heq. destruct Heq as [l [[E1 E2]|[E1 E2]]].
    + destruct l as [|x l]; cbn [app] in E2.
      * injection E2 as _ E2. subst after. exact Ht.
      * injection E2 as E3 _. subst x. exfalso.
        assert (Hin : In e b)
          by (rewrite E1; apply in_or_app; right; left; reflexivity).
        rewrite (all_ok_in b e Hok Hin) in Hf. discriminate Hf.
    + destruct l as [|x l]; cbn [app] in E2.
      * injection E2 as _ E2. subst after. exact Ht.
      * injection E2 as _ E2. exfalso. apply Hq. rewrite E2.
        apply in_or_app. right. left. reflexivity.
Qed.

Section WithWorld.

Context {World : Type}.
Variable exec_command : World -> string -> World * ExecResult.
Variable scp_get : World -> string -> string -> World * option string.

Local Abbreviation M := (@Run.M World).

Lemma orderly_ret {A} (x : A) : orderly (World := World) (ret x).
Proof. intros s. split; [left; reflexivity | reflexivity]. Qed.

Lemma orderly_raise {A} (e : string) : orderly (World := World) (A := A) (raise e).
Proof. intros s. split; [left; reflexivity | reflexivity]. Qed.

Lemma orderly_emit (e : Event) :
  failing e = false -> orderly (World := World) (emit e).
Proof.
  intros H s. unfold emit. cbn [events value].
  assert (O : all_ok [e] = true)
    by (unfold all_ok; cbn [forallb]; rewrite H; reflexivity).
  split; [left; exact O | intros _ _; exact O].
Qed.

Lemma orderly_get_app : orderly (World := World) get_app.
Proof. intros s. split; [left; reflexivity | reflexivity]. Qed.

Lemma orderly_modify_app (f : App -> App) :
  orderly (World := World) (modify_app f).
Proof. intros s. split; [left; reflexivity | reflexivity]. Qed.

Lemma orderly_bind {A B} (c : M A) (k : A -> M B) :
  orderly c -> (forall x, orderly (k x)) -> orderly (bind c k).
Proof.
  intros Hc Hk s. unfold bind. destruct (Hc s) as [Sc Vc].
  destruct (value (c s)) as [e|x] eqn:E; cbn [events value].
  - split; [exact Sc | discriminate].
  - specialize (Vc x eq_refl).
    destruct (Hk x (final (c s))) as [Sk Vk]. split.
    + destruct Sk as [Ok|[b [f [Eb [Ob Ff]]]]].
      * left. rewrite all_ok_app, Vc, Ok. reflexivity.
      * right. exists (events (c s) ++ b)%list, f.
        rewrite Eb, app_assoc, all_ok_app, Vc, Ob. auto.
    + intros y Hy. rewrite all_ok_app, Vc, (Vk y Hy). reflexivity.
Qed.

Lemma orderly_execute_command (command : string) :
  orderly (_execute_command exec_command command).
Proof.
  intros s. unfold _execute_command, bind, remote.
  cbn [events value final].
  destruct (snd (exec_command (fst s) command)) as [e|code output error];
    cbn [events value app].
  - split; [|discriminate]. right. exists [], (Remote command (Raised e)).
    repeat split.
  - destruct (code =? 0)%Z eqn:E; cbn [negb events value app].
    + split; [left|intros ? _]; unfold all_ok; cbn [forallb failing];
        rewrite E; reflexivity.
    + split; [|discriminate]. right.
      exists [], (Remote command (Completed code output error)).
      cbn [failing]. rewrite E. repeat split.
Qed.

Lemma orderly_download (remote_path local_path : string) :
  orderly (_download_backup scp_get remote_path local_path).
Proof.
  intros s. unfold _download_backup, bind, transfer.
  cbn [events value final].
  destruct (snd (scp_get (fst s) remote_path local_path)) as [e|];
    cbn [events value app emit raise].
  - split; [|discriminate]. right.
    exists [], (Transfer remote_path local_path (Some e)). repeat split.
  - split; [left|intros ? _]; reflexivity.
Qed.

Ltac orderly_step :=
  lazymatch goal with
  | |- orderly (bind _ _) => apply orderly_bind; [|intros ?]
  | |- orderly (ret _) => apply orderly_ret
  | |- orderly (raise _) => apply orderly_raise
  | |- orderly (emit _) => apply orderly_emit; reflexivity
  | |- orderly get_app => apply orderly_get_app
  | |- orderly (modify_app _) => apply orderly_modify_app
  | |- orderly (_execute_command _ _) => apply orderly_execute_command
  | |- orderly (_download_backup _ _ _) => apply orderly_download
  | |- orderly (if ?b then _ else _) => destruct b
  | |- orderly (match ?x with _ => _ end) => destruct x
  end.

Lemma orderly_volume_path : orderly (_get_volume_path exec_command).
Proof. unfold _get_volume_path. repeat orderly_step. Qed.

Lemma orderly_database (temp_dir : string) :
  orderly (_backup_database exec_command temp_dir).
Proof. unfold _backup_database. repeat orderly_step. Qed.

Lemma orderly_media (volume_path temp_dir : string) :
  orderly (_backup_media exec_command volume_path temp_dir).
Proof. unfold _backup_media. repeat orderly_step. Qed.

Lemma orderly_copy_entries (volume_path temp_dir : string)
      (dirs : list string) :
  orderly (copy_entries exec_command volume_path temp_dir dirs).
Proof.
  induction dirs as [|d dirs IH]; cbn [copy_entries].
  - apply orderly_ret.
  - apply orderly_bind; [repeat orderly_step | intros _; exact IH].
Qed.

Lemma orderly_other_files (volume_path temp_dir : string) :
  orderly (_backup_other_files exec_command volume_path temp_dir).
Proof.
  unfold _backup_other_files.
  apply orderly_bind; [apply orderly_execute_command | intros out].
  apply orderly_bind; [apply orderly_copy_entries | intros _].
  orderly_step.
Qed.

Lemma orderly_backup_steps (timestamp : string) :
  orderly (backup_steps exec_command scp_get timestamp).
Proof.
  unfold backup_steps.
  repeat lazymatch goal with
         | |- orderly (_get_volume_path _) => apply orderly_volume_path
         | |- orderly (_backup_database _ _) => apply orderly_database
         | |- orderly (_backup_media _ _ _) => apply orderly_media
         | |- orderly (_backup_other_files _ _ _) =>
             apply orderly_other_files
         | _ => orderly_step
         end.
Qed.

Lemma do_backup_aborts (in_time : nat) (timestamp : string)
      (s : World * App) :
  aborts_at_failure
    (events (_do_backup exec_command scp_get in_time timestamp s)).
Proof.
  unfold _do_backup, try_except.
  destruct (orderly_backup_steps timestamp s) as [S V].
  destruct (value (backup_steps exec_command scp_get timestamp s))
    as [e|[]] eqn:E.
  - cbn [events]. apply aborts_of_stops; [exact S|].
    cbv [bind emit events value final]. cbn [app].
    destruct in_time as [|[|n]]; cbn [reads_e Nat.leb];
      repeat constructor.
  - rewrite <- (app_nil_r (events _)).
    apply aborts_of_stops; [exact S | constructor].
Qed.

End WithWorld.

Lemma aborts_before_ok (evs before after : list Event) (e : Event) :
  aborts_at_failure evs ->
  evs = (before ++ e :: after)%list ->
  failing e = true ->
  all_ok before = true.
Proof.
  intros H E Hf. unfold all_ok. apply forallb_forall. intros x Hx.
  apply negb_true_iff. destruct (failing x) eqn:Fx; [exfalso|reflexivity].
  apply in_split in Hx. destruct Hx as [l1 [l2 ->]].
  rewrite <- app_assoc in E. cbn [app] in E.
  specialize (H l1 x (l2 ++ e :: after)%list E Fx).
  rewrite Forall_forall in H.
  assert (Hin : In e (l2 ++ e :: after))
    by (apply in_or_app; right; left; reflexivity).
  specialize (H e Hin). apply failing_is_io in Hf. congruence.
Qed.

End AbortFacts.

Import AbortFacts.

(** * Further properties: the statements *)

(** ** The listing of the containers *)

(** X1: every container of the scan comes from a line [id|name|image] of the
    listing, its fields hold no pipe and no newline, and it is displayed
    as [name (image)]. *)
Theorem parsed_containers_come_from_lines :
  forall (output : string) (c : Container),
    In c (parse_containers output) ->
    In (listing_line c) (listing_lines output)
    /\ listed c = true.
Proof.
  intros output c H. unfold parse_containers in H.
  apply in_flat_map in H. destruct H as [line [Hl Hc]].
  apply parse_line_in in Hc. destruct Hc as [-> [Hi [Hn [Hm Hd]]]].
  split; [exact Hl|].
  pose proof (split_fields newline (strip output)) as F.
  rewrite Forall_forall in F. specialize (F _ Hl).
  unfold listing_line in F. rewrite !count_app in F.
  unfold listed, plain_field.
  rewrite Hi, Hn, Hm, Hd, String.eqb_refl.
  assert (count newline (id c) = 0) as -> by lia.
  assert (count newline (name c) = 0) as -> by lia.
  assert (count newline (image c) = 0) as -> by lia.
  reflexivity.
Qed.

Lemma parsed_containers_come_from_lines_witness :
  In (listing_line homebox_c)
     (listing_lines (render_listing [homebox_c; postgres_c]))
  /\ listed homebox_c = true.
Proof.
  apply (parsed_containers_come_from_lines
           (render_listing [homebox_c; postgres_c]) homebox_c).
  vm_compute. left. reflexivity.
Defined.

(** X2: the scan reads back the listing of any containers whose fields are
    plain, when the listing has no white space at either end. *)
Theorem parse_render_round_trip :
  forall cs : list Container,
    forallb listed cs = true ->
    strip (join newline (map listing_line cs))
    = join newline (map listing_line cs) ->
    parse_containers (render_listing cs) = cs.
Proof.
  intros cs H S. unfold parse_containers, listing_lines, render_listing.
  rewrite strip_app_nl, S.
  destruct cs as [|c0 cs0]; [reflexivity|].
  set (cs := c0 :: cs0) in *.
  rewrite split_join.
  - clear S. induction cs as [|c cs IH]; [reflexivity|].
    cbn [forallb] in H. apply andb_prop in H. destruct H as [Hc H].
    cbn [map flat_map]. rewrite (parse_line_listed c Hc).
    rewrite (IH H). reflexivity.
  - discriminate.
  - rewrite Forall_forall. intros l Hl. apply in_map_iff in Hl.
    destruct Hl as [c [<- Hc]].
    rewrite forallb_forall in H. specialize (H c Hc).
    apply listed_fields in H.
    destruct H as [[_ Hi] [[_ Hn] [[_ Hm] _]]].
    unfold listing_line. rewrite !count_app, Hi, Hn, Hm. reflexivity.
Qed.

Lemma parse_render_round_trip_witness :
  parse_containers (render_listing [homebox_c; postgres_c])
  = [homebox_c; postgres_c].
Proof.
  apply (parse_render_round_trip [homebox_c; postgres_c]); reflexivity.
Defined.

(** ** The selection of the containers *)

(** X3: the automatic selection picks the first container whose name or
    image mentions the word, whatever the case of the letters, and the
    first container of the list when none does. *)
Theorem auto_select_first_mention :
  forall (needle : string) (containers : list Container),
    containers <> [] ->
    let i := auto_select needle containers in
    i < length containers
    /\ ((exists c, nth_error containers i = Some c
                   /\ mentions needle c = true
                   /\ forall j c', j < i -> nth_error containers j = Some c' ->
                                   mentions needle c' = false)
        \/ (i = 0 /\ forall c, In c containers -> mentions needle c = false)).
Proof.
  intros needle containers H. exact (auto_select_spec needle containers H).
Qed.

Lemma auto_select_first_mention_witness :
  let i := auto_select "postgres" [homebox_c; postgres_c] in
  i < length [homebox_c; postgres_c]
  /\ ((exists c, nth_error [homebox_c; postgres_c] i = Some c
                 /\ mentions "postgres" c = true
                 /\ forall j c', j < i ->
                                 nth_error [homebox_c; postgres_c] j = Some c' ->
                                 mentions "postgres" c' = false)
      \/ (i = 0 /\ forall c, In c [homebox_c; postgres_c] ->
                             mentions "postgres" c = false)).
Proof.
  apply (auto_select_first_mention "postgres" [homebox_c; postgres_c]).
  discriminate.
Defined.

(** X4: after a scan that found containers and the update of the lists that
    follows it, pressing the backup button starts the worker on the
    containers that were selected automatically: the selection is never
    reported as missing and the indices are never out of range. *)
Theorem start_backup_after_scan :
  forall (World : Type) (w : World) (a : App) (output : string),
    let containers := parse_containers output in
    containers <> [] ->
    let r := start_backup (w, _update_container_lists containers a) in
    value r = inr true
    /\ homebox_container (snd (final r))
       = nth_error containers (auto_select "homebox" containers)
    /\ postgres_container (snd (final r))
       = nth_error containers (auto_select "postgres" containers)
    /\ commands (events r) = [].
Proof.
  intros World w a output cs Hne r.
  destruct (auto_select_spec "homebox" cs Hne) as [Hi _].
  destruct (auto_select_spec "postgres" cs Hne) as [Hj _].
  destruct (nth_error cs (auto_select "homebox" cs)) as [h|] eqn:Eh;
    [|apply nth_error_None in Eh; lia].
  destruct (nth_error cs (auto_select "postgres" cs)) as [p|] eqn:Ep;
    [|apply nth_error_None in Ep; lia].
  assert (Th : truthy (display h) = true)
    by (apply (parsed_display_truthy output), (nth_error_In _ _ Eh)).
  assert (Tp : truthy (display p) = true)
    by (apply (parsed_display_truthy output), (nth_error_In _ _ Ep)).
  subst r.
  apply (start_backup_selects w (_update_container_lists cs a) h p);
    unfold _update_container_lists;
    (destruct (map display cs) as [|d ds] eqn:Ed;
     [destruct cs; [contradiction | discriminate Ed]|]);
    rewrite <- Ed;
    cbn [homebox_container_var postgres_container_var homebox_current
         postgres_current containers_info].
  - rewrite (nth_display cs _ h Eh). exact Th.
  - rewrite (nth_display cs _ p Ep). exact Tp.
  - rewrite (py_index_nat cs _ Hi). exact Eh.
  - rewrite (py_index_nat cs _ Hj). exact Ep.
Qed.

Lemma start_backup_after_scan_witness :
  let output :=
    "3f2a9c1d7b10|homebox|ghcr.io/sysadminsmedia/homebox:latest" ++ nl
    ++ "9a8b7c6d5e4f|homebox-db|postgres:16" ++ nl in
  let containers := parse_containers output in
  let r := start_backup (tt, _update_container_lists containers app0) in
  value r = inr true
  /\ homebox_container (snd (final r))
     = nth_error containers (auto_select "homebox" containers)
  /\ postgres_container (snd (final r))
     = nth_error containers (auto_select "postgres" containers)
  /\ commands (events r) = [].
Proof.
  apply (start_backup_after_scan unit tt app0
           ("3f2a9c1d7b10|homebox|ghcr.io/sysadminsmedia/homebox:latest" ++ nl
            ++ "9a8b7c6d5e4f|homebox-db|postgres:16" ++ nl)).
  vm_compute. discriminate.
Defined.

(** ** Single methods *)

(** X5: [_execute_command] sends exactly the one command and leaves the
    fields alone; it returns the standard output when the exit status is
    0, raises with a message that contains the command and the standard
    error when it is not, and lets an exception of the session through. *)
Theorem execute_command_reports :
  forall (World : Type)
         (exec_command : World -> string -> World * ExecResult)
         (command : string) (s : World * App),
    let r := _execute_command exec_command command s in
    snd (final r) = snd s
    /\ commands (events r) = [command]
    /\ match snd (exec_command (fst s) command) with
       | Raised e => value r = inl e
       | Completed code output error =>
           if (code =? 0)%Z then value r = inr output
           else exists message,
               value r = inl message
               /\ contains command message = true
               /\ contains error message = true
       end.
Proof.
  intros World exec_command command s.
  exact (execute_command_contract exec_command command s).
Qed.

(** X6: [start_backup] sends nothing to the server.  With one of the two
    boxes empty it only shows the error and changes nothing.  It starts
    the worker exactly when both boxes are filled and both indices select
    a container of the list (with Python's indexing), which it then
    stores; and when it starts the worker it disables the backup button
    and sets the progress to 0. *)
Theorem start_backup_starts_when_selected :
  forall (World : Type) (s : World * App),
    let r := start_backup s in
    let a := snd s in
    let selected :=
      truthy (homebox_container_var a) && truthy (postgres_container_var a) in
    commands (events r) = []
    /\ fst (final r) = fst s
    /\ (selected = false ->
        events r = [ShowError "Error" "Please select both containers"]
        /\ final r = s /\ value r = inr false)
    /\ (value r = inr true <->
        selected = true
        /\ (exists h p,
               py_index (containers_info a) (homebox_current a) = Some h
               /\ py_index (containers_info a) (postgres_current a) = Some p
               /\ homebox_container (snd (final r)) = Some h
               /\ postgres_container (snd (final r)) = Some p))
    /\ (value r = inr true ->
        In (Configure backup_btn "disabled") (events r)
        /\ progress_values (events r) = [0%Z]).
Proof.
  intros World s. exact (start_backup_contract s).
Qed.

(** X7: with an archive path kept, [delete_server_backup] always asks for
    confirmation and returns normally.  Declined, it sends nothing and
    changes nothing.  Confirmed, it sends exactly [rm -f] on the path:
    when that exits with status 0 the path is cleared, the delete button
    disabled and the success shown; when it exits with another status the
    fields stay as they are, the button is not disabled and the error
    shown contains the standard error. *)
Theorem delete_asks_then_removes :
  forall (World : Type)
         (exec_command : World -> string -> World * ExecResult)
         (response : bool) (s : World * App) (path : string),
    remote_backup_path (snd s) = Some path ->
    path <> EmptyString ->
    let r := delete_server_backup exec_command response s in
    let evs := events r in
    value r = inr tt
    /\ In (AskYesNo "Confirm Delete"
             ("Delete the backup archive from the server?" ++ nl ++ nl
              ++ path) response) evs
    /\ commands evs = (if response then ["rm -f " ++ path] else [])
    /\ (response = false -> final r = s)
    /\ (forall output error,
           response = true ->
           snd (exec_command (fst s) ("rm -f " ++ path))
           = Completed 0 output error ->
           remote_backup_path (snd (final r)) = None
           /\ In (Configure delete_btn "disabled") evs
           /\ In (ShowInfo "Success" "Server backup deleted successfully") evs)
    /\ (forall code output error,
           response = true ->
           snd (exec_command (fst s) ("rm -f " ++ path))
           = Completed code output error ->
           code <> 0%Z ->
           snd (final r) = snd s
           /\ ~ In (Configure delete_btn "disabled") evs
           /\ In (ShowError "Error"
                    ("Failed to delete server backup:" ++ nl
                     ++ "Command failed: " ++ "rm -f " ++ path ++ nl
                     ++ error)) evs).
Proof.
  intros World exec_command response s path Hp Hne.
  exact (delete_contract exec_command response s path Hp Hne).
Qed.

Lemma delete_asks_then_removes_witness :
  let path := "/tmp/homebox_backup_20240101_120000.tar.gz" in
  let s := (tt, app_ready false (Some path)) in
  let exec_command := docker_host "homebox" [data_volume] in
  let r := delete_server_backup exec_command true s in
  let evs := events r in
  value r = inr tt
  /\ In (AskYesNo "Confirm Delete"
           ("Delete the backup archive from the server?" ++ nl ++ nl
            ++ path) true) evs
  /\ commands evs = ["rm -f " ++ path]
  /\ (true = false -> final r = s)
  /\ (forall output error,
         true = true ->
         snd (exec_command (fst s) ("rm -f " ++ path))
         = Completed 0 output error ->
         remote_backup_path (snd (final r)) = None
         /\ In (Configure delete_btn "disabled") evs
         /\ In (ShowInfo "Success" "Server backup deleted successfully") evs)
  /\ (forall code output error,
         true = true ->
         snd (exec_command (fst s) ("rm -f " ++ path))
         = Completed code output error ->
         code <> 0%Z ->
         snd (final r) = snd s
         /\ ~ In (Configure delete_btn "disabled") evs
         /\ In (ShowError "Error"
                  ("Failed to delete server backup:" ++ nl
                   ++ "Command failed: " ++ "rm -f " ++ path ++ nl
                   ++ error)) evs).
Proof.
  apply (delete_asks_then_removes unit (docker_host "homebox" [data_volume])
           true
           (tt, app_ready false
                  (Some "/tmp/homebox_backup_20240101_120000.tar.gz"))
           "/tmp/homebox_backup_20240101_120000.tar.gz").
  - reflexivity.
  - discriminate.
Defined.

(** X8: after a confirmed deletion that succeeded, a second press of the
    delete button only shows that there is nothing to delete and sends
    nothing to the server. *)
Theorem delete_twice_only_warns :
  forall (World : Type)
         (exec_command : World -> string -> World * ExecResult)
         (response : bool) (s : World * App) (path output error : string),
    remote_backup_path (snd s) = Some path ->
    path <> EmptyString ->
    snd (exec_command (fst s) ("rm -f " ++ path)) = Completed 0 output error ->
    let first := delete_server_backup exec_command true s in
    let second := delete_server_backup exec_command response (final first) in
    commands (events first) = ["rm -f " ++ path]
    /\ events second
       = [ShowWarning "No Backup" "No server-side backup to delete"]
    /\ final second = final first.
Proof.
  intros World exec_command response s path output error Hp Hne Hx
         first second.
  destruct (delete_contract exec_command true s path Hp Hne)
    as [_ [_ [Hc [_ [Hd _]]]]].
  destruct (Hd output error eq_refl Hx) as [Hn _].
  split; [exact Hc|].
  exact (delete_without_path exec_command response (final first) Hn).
Qed.

Lemma delete_twice_only_warns_witness :
  let path := "/tmp/homebox_backup_20240101_120000.tar.gz" in
  let exec_command := docker_host "homebox" [data_volume] in
  let first :=
    delete_server_backup exec_command true
                         (tt, app_ready false (Some path)) in
  let second := delete_server_backup exec_command true (final first) in
  commands (events first) = ["rm -f " ++ path]
  /\ events second
     = [ShowWarning "No Backup" "No server-side backup to delete"]
  /\ final second = final first.
Proof.
  apply (delete_twice_only_warns unit (docker_host "homebox" [data_volume])
           true
           (tt, app_ready false
                  (Some "/tmp/homebox_backup_20240101_120000.tar.gz"))
           "/tmp/homebox_backup_20240101_120000.tar.gz"
           EmptyString EmptyString).
  - reflexivity.
  - discriminate.
  - reflexivity.
Defined.

Lemma volume_host_or_true : or_true_succeeds volume_host.
Proof.
  intros w c. unfold volume_host. cbn [snd].
  destruct (starts_with "docker inspect " (c ++ " || true")); [eauto|].
  destruct (starts_with "[ -d " (c ++ " || true")); [eauto|].
  destruct (starts_with "ls -1 " (c ++ " || true")); [eauto|].
  unfold ok. eauto.
Qed.

(** X9: on a remote shell that gives exit status 0 to every command line
    ending in [|| true], when the listing of the volume succeeds
    [_backup_other_files] sends, after the listing, one copy for each line
    of the listing that is not empty and is not [attachments], in the
    order of the listing, and nothing else; it does not fail and logs its
    completion. *)
Theorem other_files_are_copied_in_order :
  forall (World : Type)
         (exec_command : World -> string -> World * ExecResult)
         (volume_path temp_dir : string) (s : World * App)
         (output error : string),
    or_true_succeeds exec_command ->
    snd (exec_command (fst s) (list_command volume_path))
    = Completed 0 output error ->
    let r := _backup_other_files exec_command volume_path temp_dir s in
    value r = inr tt
    /\ commands (events r)
       = list_command volume_path
         :: map (other_copy_command volume_path temp_dir)
                (filter copied_entry (split newline (strip output)))
    /\ In (LogOutput "Other files backup completed") (events r).
Proof.
  intros World exec_command volume_path temp_dir s output error shell H.
  exact (other_files_commands exec_command shell volume_path temp_dir s
           output error H).
Qed.

Lemma other_files_are_copied_in_order_witness :
  let volume_path := "/srv/homebox/data" in
  let temp_dir := "/tmp/homebox_backup_20240101_120000" in
  let r := _backup_other_files volume_host volume_path temp_dir
                               (tt, app_selected true None) in
  value r = inr tt
  /\ commands (events r)
     = list_command volume_path
       :: map (other_copy_command volume_path temp_dir)
              (filter copied_entry
                 (split newline
                    (strip ("attachments" ++ nl ++ "config.yml" ++ nl
                            ++ "thumbnails" ++ nl))))
  /\ In (LogOutput "Other files backup completed") (events r).
Proof.
  apply (other_files_are_copied_in_order unit volume_host
           "/srv/homebox/data" "/tmp/homebox_backup_20240101_120000"
           (tt, app_selected true None)
           ("attachments" ++ nl ++ "config.yml" ++ nl ++ "thumbnails" ++ nl)
           EmptyString).
  - apply volume_host_or_true.
  - reflexivity.
Defined.

(** ** Whole runs of the worker *)

(** X10: when the lookup of the data volume finds no path, the worker
    ends in its handler of failures, which caught the message that the
    path could not be determined; the message is on the screen when Tk
    runs both callbacks of the handler before it ends.  The run has sent
    nothing but inspections of the container, so that nothing was created
    on the server, and the fields are as before. *)
Theorem no_volume_nothing_created :
  forall (World : Type)
         (exec_command : World -> string -> World * ExecResult)
         (scp_get : World -> string -> string -> World * option string)
         (in_time : nat) (timestamp : string) (s : World * App),
    value (_get_volume_path exec_command s) = inr None ->
    let r := _do_backup exec_command scp_get in_time timestamp s in
    failed_with in_time "Could not determine data volume path" (events r)
    /\ (2 <= in_time ->
        surfaced "Could not determine data volume path" (events r))
    /\ Forall (fun c => starts_with "docker inspect " c = true)
              (commands (events r))
    /\ snd (final r) = snd s.
Proof.
  intros World exec_command scp_get in_time timestamp s H r. subst r.
  pose proof (do_backup_late exec_command scp_get in_time timestamp s) as L.
  destruct (no_volume_of_run exec_command scp_get timestamp s H)
    as [Hf [Hc Hs]].
  apply (failed_with_schedule exec_command scp_get in_time) in Hf.
  split; [exact Hf|]. split.
  - intros Hn. destruct in_time as [|[|n]]; [lia | lia |].
    exact (failed_with_surfaced n _ _ Hf).
  - rewrite (late_commands _ _ L), do_backup_final. split; assumption.
Qed.

Lemma no_volume_nothing_created_witness :
  let s := (tt, app_selected false None) in
  let r := _do_backup (docker_host "homebox" []) scp_ok 2 "20240101_120000"
                      s in
  failed_with 2 "Could not determine data volume path" (events r)
  /\ (2 <= 2 -> surfaced "Could not determine data volume path" (events r))
  /\ Forall (fun c => starts_with "docker inspect " c = true)
            (commands (events r))
  /\ snd (final r) = snd s.
Proof.
  apply (no_volume_nothing_created unit (docker_host "homebox" []) scp_ok
           2 "20240101_120000" (tt, app_selected false None)).
  reflexivity.
Defined.

(** X11: the worker never ends with an exception, and every run ends by
    enabling the backup button again.  A run either logs its success or
    ends in the handler of failures, never both. *)
Theorem run_ends_in_one_state :
  forall (World : Type)
         (exec_command : World -> string -> World * ExecResult)
         (scp_get : World -> string -> string -> World * option string)
         (in_time : nat) (timestamp : string) (s : World * App),
    let r := _do_backup exec_command scp_get in_time timestamp s in
    value r = inr tt
    /\ ends_with (Configure backup_btn "normal") (events r)
    /\ (succeeded (events r) \/ exists m, failed_with in_time m (events r))
    /\ ~ (succeeded (events r)
          /\ exists m, failed_with in_time m (events r)).
Proof.
  intros World exec_command scp_get in_time timestamp s r. subst r.
  pose proof (do_backup_late exec_command scp_get in_time timestamp s) as L.
  destruct (terminal_state_of_run exec_command scp_get timestamp s)
    as [_ [He [Ho Hn]]].
  destruct (do_backup_events exec_command scp_get in_time timestamp s)
    as [_ [V E]].
  destruct (do_backup_events exec_command scp_get 2 timestamp s)
    as [_ [_ E2]].
  pose proof (steps_backup_steps exec_command scp_get timestamp s) as Q.
  split; [exact V|].
  destruct (value (backup_steps exec_command scp_get timestamp s))
    as [e|[]] eqn:B.
  - assert (F : failed_with in_time e
                  (events (_do_backup exec_command scp_get in_time
                                      timestamp s)))
      by (apply raised_failed_with; exact B).
    assert (F2 : failed
                   (events (_do_backup exec_command scp_get 2 timestamp s))).
    { exists e. rewrite E2. apply in_or_app. right. cbn. tauto. }
    split; [|split; [right; exists e; exact F|]].
    + destruct F as [before ->]. unfold handler_shows.
      rewrite app_assoc. eexists. reflexivity.
    + intros [S _]. apply Hn. split; [|exact F2].
      exact (proj1 (late_succeeded _ _ L) S).
  - cbv beta iota in E, E2.
    rewrite E. rewrite E2 in He, Ho. rewrite app_nil_r in *.
    split; [exact He|].
    assert (S : succeeded
                  (events (backup_steps exec_command scp_get timestamp s))).
    { destruct Ho as [S|[m F]]; [exact S | exfalso].
      rewrite Forall_forall in Q. specialize (Q _ F). discriminate Q. }
    split; [left; exact S|].
    intros [_ [m F]].
    assert (F' : failed_with in_time m
                   (events (_do_backup exec_command scp_get in_time
                                       timestamp s)))
      by (rewrite E; exact F).
    apply failed_with_raised in F'. destruct F' as [e [B' _]].
    rewrite B in B'. discriminate B'.
Qed.

(** X12: a run that logs its success has set the progress to 5, 10, 20,
    40, 60, 70, 75 and 100 in this order, has downloaded the archive
    [/tmp/homebox_backup_<timestamp>.tar.gz] to the file of the same name
    in the directory of the form, keeps the path of the archive for the
    deletion and has enabled the delete button. *)
Theorem successful_run_downloads_archive :
  forall (World : Type)
         (exec_command : World -> string -> World * ExecResult)
         (scp_get : World -> string -> string -> World * option string)
         (in_time : nat) (timestamp : string) (s : World * App),
    let r := _do_backup exec_command scp_get in_time timestamp s in
    succeeded (events r) ->
    let backup_name := "homebox_backup_" ++ timestamp in
    let archive_path := "/tmp/" ++ backup_name ++ ".tar.gz" in
    let local_path :=
      path_join (save_path_var (snd s)) (backup_name ++ ".tar.gz") in
    progress_values (events r) = [5; 10; 20; 40; 60; 70; 75; 100]%Z
    /\ In (Transfer archive_path local_path None) (events r)
    /\ In (LogOutput ("Saved to: " ++ local_path)) (events r)
    /\ remote_backup_path (snd (final r)) = Some archive_path
    /\ In (Configure delete_btn "normal") (events r).
Proof.
  intros World exec_command scp_get in_time timestamp s r S. subst r.
  pose proof (do_backup_late exec_command scp_get in_time timestamp s) as L.
  destruct (success_of_run exec_command scp_get timestamp s
              (proj1 (late_succeeded _ _ L) S))
    as [Hp [Ht [Hl [Hr Hd]]]].
  cbv zeta. rewrite (late_progress _ _ L), do_backup_final.
  split; [exact Hp|].
  split; [apply (late_in_r _ _ _ L Ht); reflexivity|].
  split; [apply (late_in_r _ _ _ L Hl); reflexivity|].
  split; [exact Hr|].
  apply (late_in_r _ _ _ L Hd). reflexivity.
Qed.

Lemma successful_run_downloads_archive_witness :
  let r := _do_backup (media_host ("exists" ++ nl) ok) scp_ok 0
                      "20240101_120000" (tt, app_selected false None) in
  let backup_name := "homebox_backup_" ++ "20240101_120000" in
  let archive_path := "/tmp/" ++ backup_name ++ ".tar.gz" in
  let local_path :=
    path_join (save_path_var (snd (tt, app_selected false None)))
              (backup_name ++ ".tar.gz") in
  progress_values (events r) = [5; 10; 20; 40; 60; 70; 75; 100]%Z
  /\ In (Transfer archive_path local_path None) (events r)
  /\ In (LogOutput ("Saved to: " ++ local_path)) (events r)
  /\ remote_backup_path (snd (final r)) = Some archive_path
  /\ In (Configure delete_btn "normal") (events r).
Proof.
  apply (successful_run_downloads_archive unit
           (media_host ("exists" ++ nl) ok) scp_ok 0 "20240101_120000"
           (tt, app_selected false None)).
  vm_compute. repeat first [left; reflexivity | right].
Defined.

(** X13: when the transfer fails, it was the transfer of the archive to
    the file of the same name in the directory of the form; the run ends
    in the handler of failures, which caught the message
    [Download failed: ...]; the path of the archive, which is still on
    the server, is kept, yet the delete button is not enabled, and the
    progress never reaches 100. *)
Theorem failed_download_keeps_archive :
  forall (World : Type)
         (exec_command : World -> string -> World * ExecResult)
         (scp_get : World -> string -> string -> World * option string)
         (in_time : nat) (timestamp : string) (s : World * App)
         (remote_path local_path e : string),
    let r := _do_backup exec_command scp_get in_time timestamp s in
    In (Transfer remote_path local_path (Some e)) (events r) ->
    let backup_name := "homebox_backup_" ++ timestamp in
    remote_path = "/tmp/" ++ backup_name ++ ".tar.gz"
    /\ local_path
       = path_join (save_path_var (snd s)) (backup_name ++ ".tar.gz")
    /\ failed_with in_time ("Download failed: " ++ e) (events r)
    /\ remote_backup_path (snd (final r)) = Some remote_path
    /\ ~ In (Configure delete_btn "normal") (events r)
    /\ ~ In 100%Z (progress_values (events r)).
Proof.
  intros World exec_command scp_get in_time timestamp s
         remote_path local_path e r Hin. subst r.
  pose proof (do_backup_late exec_command scp_get in_time timestamp s) as L.
  destruct (download_failure_of_run exec_command scp_get timestamp s
              remote_path local_path e
              (late_in_l _ _ _ L Hin ltac:(discriminate)))
    as [Hr [Hl [Hf [Hp [Hd Hn]]]]].
  cbv zeta. rewrite (late_progress _ _ L), do_backup_final.
  split; [exact Hr|]. split; [exact Hl|].
  split; [apply failed_with_schedule; exact Hf|].
  split; [exact Hp|]. split; [|exact Hn].
  intros D. apply Hd. apply (late_in_l _ _ _ L D). discriminate.
Qed.

Lemma failed_download_keeps_archive_witness :
  let r := _do_backup (media_host ("exists" ++ nl) ok)
                      (scp_failing "No such file or directory") 0
                      "20240101_120000" (tt, app_selected false None) in
  let backup_name := "homebox_backup_" ++ "20240101_120000" in
  let remote_path := "/tmp/homebox_backup_20240101_120000.tar.gz" in
  let local_path :=
    "/home/user/Downloads/homebox_backup_20240101_120000.tar.gz" in
  remote_path = "/tmp/" ++ backup_name ++ ".tar.gz"
  /\ local_path
     = path_join (save_path_var (snd (tt, app_selected false None)))
                 (backup_name ++ ".tar.gz")
  /\ failed_with 0 ("Download failed: " ++ "No such file or directory")
                 (events r)
  /\ remote_backup_path (snd (final r)) = Some remote_path
  /\ ~ In (Configure delete_btn "normal") (events r)
  /\ ~ In 100%Z (progress_values (events r)).
Proof.
  apply (failed_download_keeps_archive unit
           (media_host ("exists" ++ nl) ok)
           (scp_failing "No such file or directory")
           0 "20240101_120000" (tt, app_selected false None)
           "/tmp/homebox_backup_20240101_120000.tar.gz"
           "/home/user/Downloads/homebox_backup_20240101_120000.tar.gz"
           "No such file or directory").
  vm_compute. repeat first [left; reflexivity | right].
Defined.

(** X14: when the other files are not included and the media check
    prints anything but [exists], no copy is sent at all, the run logs
    that it skips the media and goes on to make the archive: a volume
    without attachments is not an error. *)
Theorem missing_media_is_skipped :
  forall (World : Type)
         (exec_command : World -> string -> World * ExecResult)
         (scp_get : World -> string -> string -> World * option string)
         (in_time : nat) (timestamp : string) (s : World * App)
         (v output error : string),
    backup_other_var (snd s) = false ->
    let evs :=
      events (_do_backup exec_command scp_get in_time timestamp s) in
    In (Remote (media_check_command v) (Completed 0 output error)) evs ->
    strip output <> "exists" ->
    Forall (fun c => starts_with "cp -r " c = false) (commands evs)
    /\ In (LogOutput "No media directory found, skipping...") evs
    /\ exists r,
        In (Remote (archive_command ("homebox_backup_" ++ timestamp)) r) evs.
Proof.
  intros World exec_command scp_get in_time timestamp s v output error Hv
         evs Hin Hout. subst evs.
  pose proof (do_backup_late exec_command scp_get in_time timestamp s) as L.
  destruct (missing_media_of_run exec_command scp_get timestamp s Hv
              v output error
              (late_in_l _ _ _ L Hin ltac:(discriminate)) Hout)
    as [Hc [Hl [r Hr]]].
  rewrite (late_commands _ _ L).
  split; [exact Hc|].
  split; [apply (late_in_r _ _ _ L Hl); reflexivity|].
  exists r. apply (late_in_r _ _ _ L Hr). reflexivity.
Qed.

Lemma missing_media_is_skipped_witness :
  let evs :=
    events (_do_backup (media_host ("notfound" ++ nl) ok) scp_ok 0
                       "20240101_120000" (tt, app_selected false None)) in
  Forall (fun c => starts_with "cp -r " c = false) (commands evs)
  /\ In (LogOutput "No media directory found, skipping...") evs
  /\ exists r,
      In (Remote (archive_command ("homebox_backup_" ++ "20240101_120000")) r)
         evs.
Proof.
  apply (missing_media_is_skipped unit (media_host ("notfound" ++ nl) ok)
           scp_ok 0 "20240101_120000" (tt, app_selected false None)
           "/srv/homebox/data" ("notfound" ++ nl) EmptyString).
  - reflexivity.
  - vm_compute. repeat first [left; reflexivity | right].
  - vm_compute. discriminate.
Defined.

(** X15: in every run of the worker, once a command or the transfer has
    failed (an exception of the session, an exit status other than 0, a
    failed transfer), nothing more is sent to the server, and every
    command before it had succeeded: a run has at most one failure, and
    it is the last thing the run does on the server. *)
Theorem worker_stops_at_first_failure :
  forall (World : Type)
         (exec_command : World -> string -> World * ExecResult)
         (scp_get : World -> string -> string -> World * option string)
         (in_time : nat) (timestamp : string) (s : World * App)
         (before after : list Event) (e : Event),
    events (_do_backup exec_command scp_get in_time timestamp s)
    = (before ++ e :: after)%list ->
    failing e = true ->
    all_ok before = true
    /\ Forall (fun x => is_io x = false) after.
Proof.
  intros World exec_command scp_get in_time timestamp s before after e E Hf.
  pose proof (do_backup_aborts exec_command scp_get in_time timestamp s) as H.
  split; [exact (aborts_before_ok _ _ _ _ H E Hf) | exact (H _ _ _ E Hf)].
Qed.

Lemma worker_stops_at_first_failure_witness :
  let evs :=
    events (_do_backup (dump_failing_host "pg_dump: error") scp_ok 0
                       "20240101_120000" (tt, app_selected false None)) in
  all_ok (firstn 10 evs) = true
  /\ Forall (fun x => is_io x = false) (skipn 11 evs).
Proof.
  apply (worker_stops_at_first_failure unit
           (dump_failing_host "pg_dump: error") scp_ok
           0 "20240101_120000" (tt, app_selected false None)
           (firstn 10
              (events (_do_backup (dump_failing_host "pg_dump: error") scp_ok
                                  0 "20240101_120000"
                                  (tt, app_selected false None))))
           (skipn 11
              (events (_do_backup (dump_failing_host "pg_dump: error") scp_ok
                                  0 "20240101_120000"
                                  (tt, app_selected false None))))
           (Remote (dump_command "homebox-db"
                                 "/tmp/homebox_backup_20240101_120000")
                   (Completed 1 EmptyString "pg_dump: error"))).
  - vm_compute. reflexivity.
  - reflexivity.
Defined.

(** ** The fields that the methods leave alone *)

Module FrameFacts.

Lemma set_path_same (a : App) :
  a = set_remote_backup_path (remote_backup_path a) a.
Proof. destruct a. reflexivity. Qed.

Lemma set_path_twice (p q : option string) (a : App) :
  set_remote_backup_path q (set_remote_backup_path p a)
  = set_remote_backup_path q a.
Proof. reflexivity. Qed.

Lemma set_path_get (p : option string) (a : App) :
  remote_backup_path (set_remote_backup_path p a) = p.
Proof. reflexivity. Qed.

Section WithWorld.

Context {World : Type}.
Variable exec_command : World -> string -> World * ExecResult.
Variable scp_get : World -> string -> string -> World * option string.

Local Abbreviation M := (@Run.M World).

Lemma keeps_same {A} (c : M A) :
  (forall s, snd (final (c s)) = snd s) -> keeps_fields c.
Proof.
  intros H s. exists (remote_backup_path (snd s)). rewrite H.
  apply set_path_same.
Qed.

Lemma keeps_ret {A} (x : A) : keeps_fields (World := World) (ret x).
Proof. apply keeps_same. reflexivity. Qed.

Lemma keeps_raise {A} (e : string) :
  keeps_fields (World := World) (A := A) (raise e).
Proof. apply keeps_same. reflexivity. Qed.

Lemma keeps_emit (e : Event) : keeps_fields (World := World) (emit e).
Proof. apply keeps_same. reflexivity. Qed.

Lemma keeps_get_app : keeps_fields (World := World) get_app.
Proof. apply keeps_same. reflexivity. Qed.

Lemma keeps_set_path (p : option string) :
  keeps_fields (World := World) (modify_app (set_remote_backup_path p)).
Proof. intros s. exists p. reflexivity. Qed.

Lemma keeps_remote (command : string) :
  keeps_fields (remote exec_command command).
Proof. apply keeps_same. reflexivity. Qed.

Lemma keeps_transfer (remote_path local_path : string) :
  keeps_fields (transfer scp_get remote_path local_path).
Proof. apply keeps_same. reflexivity. Qed.

Lemma keeps_bind {A B} (c : M A) (k : A -> M B) :
  keeps_fields c -> (forall x, keeps_fields (k x)) -> keeps_fields (bind c k).
Proof.
  intros Hc Hk s. unfold bind. destruct (Hc s) as [p Ep].
  destruct (value (c s)) as [e|x]; cbn [final].
  - exists p. exact Ep.
  - destruct (Hk x (final (c s))) as [q Eq]. exists q.
    rewrite Eq, Ep. apply set_path_twice.
Qed.

Lemma keeps_try_except {A} (c : M A) (h : string -> M A) :
  keeps_fields c -> (forall e, keeps_fields (h e)) ->
  keeps_fields (try_except c h).
Proof.
  intros Hc Hh s. unfold try_except. destruct (Hc s) as [p Ep].
  destruct (value (c s)) as [e|x]; cbn [final].
  - destruct (Hh e (final (c s))) as [q Eq]. exists q.
    rewrite Eq, Ep. apply set_path_twice.
  - exists p. exact Ep.
Qed.

Ltac keeps_step :=
  lazymatch goal with
  | |- keeps_fields (bind _ _) => apply keeps_bind; [|intros ?]
  | |- keeps_fields (try_except _ _) => apply keeps_try_except; [|intros ?]
  | |- keeps_fields (ret _) => apply keeps_ret
  | |- keeps_fields (raise _) => apply keeps_raise
  | |- keeps_fields (emit _) => apply keeps_emit
  | |- keeps_fields get_app => apply keeps_get_app
  | |- keeps_fields (modify_app (set_remote_backup_path _)) =>
      apply keeps_set_path
  | |- keeps_fields (remote _ _) => apply keeps_remote
  | |- keeps_fields (transfer _ _ _) => apply keeps_transfer
  | |- keeps_fields (_execute_command _ _) => unfold _execute_command
  | |- keeps_fields (when _ _) => unfold when
  | |- keeps_fields (_get_volume_path _) => unfold _get_volume_path
  | |- keeps_fields (_backup_database _ _) => unfold _backup_database
  | |- keeps_fields (_backup_media _ _ _) => unfold _backup_media
  | |- keeps_fields (_download_backup _ _ _) => unfold _download_backup
  | |- keeps_fields (if ?b then _ else _) => destruct b
  | |- keeps_fields (match ?x with _ => _ end) => destruct x
  end.

Lemma keeps_copy_entries (volume_path temp_dir : string)
      (dirs : list string) :
  keeps_fields (copy_entries exec_command volume_path temp_dir dirs).
Proof.
  induction dirs as [|d dirs IH]; cbn [copy_entries].
  - apply keeps_ret.
  - apply keeps_bind; [repeat keeps_step | intros _; exact IH].
Qed.

Lemma keeps_other_files (volume_path temp_dir : string) :
  keeps_fields (_backup_other_files exec_command volume_path temp_dir).
Proof.
  unfold _backup_other_files.
  apply keeps_bind; [repeat keeps_step | intros out].
  apply keeps_bind; [apply keeps_copy_entries | intros _].
  keeps_step.
Qed.

Lemma keeps_do_backup (in_time : nat) (timestamp : string) :
  keeps_fields (_do_backup exec_command scp_get in_time timestamp).
Proof.
  unfold _do_backup, backup_steps.
  repeat lazymatch goal with
         | |- keeps_fields (_backup_other_files _ _ _) =>
             apply keeps_other_files
         | _ => keeps_step
         end.
Qed.

Lemma keeps_delete (response : bool) :
  keeps_fields (delete_server_backup exec_command response).
Proof. unfold delete_server_backup. repeat keeps_step. Qed.

Lemma keeps_scan (in_time : nat) :
  keeps_fields (_do_scan_containers exec_command in_time).
Proof. unfold _do_scan_containers. repeat keeps_step. Qed.

Lemma keeps_fields_frame {A} (c : M A) (s : World * App) :
  keeps_fields c ->
  snd (final (c s))
  = set_remote_backup_path (remote_backup_path (snd (final (c s)))) (snd s).
Proof.
  intros H. destruct (H s) as [p E]. rewrite E at 2.
  rewrite set_path_get. exact E.
Qed.

End WithWorld.

End FrameFacts.

Import FrameFacts.

(** X16: the worker and the deletion change no field of the application
    but the archive path: the stored containers, the two selections, the
    option of the other files and the save directory are after the method
    what they were before.  The scan changes no field at all. *)
Theorem methods_change_only_the_archive_path :
  forall (World : Type)
         (exec_command : World -> string -> World * ExecResult)
         (scp_get : World -> string -> string -> World * option string)
         (in_time : nat) (timestamp : string) (response : bool)
         (s : World * App),
    let backup :=
      snd (final (_do_backup exec_command scp_get in_time timestamp s)) in
    let delete :=
      snd (final (delete_server_backup exec_command response s)) in
    backup = set_remote_backup_path (remote_backup_path backup) (snd s)
    /\ delete = set_remote_backup_path (remote_backup_path delete) (snd s)
    /\ snd (final (_do_scan_containers exec_command in_time s)) = snd s.
Proof.
  intros World exec_command scp_get in_time timestamp response s.
  split; [exact (keeps_fields_frame _ s
                   (keeps_do_backup exec_command scp_get in_time timestamp))|].
  split; [exact (keeps_fields_frame _ s
                   (keeps_delete exec_command response))|].
  rewrite (keeps_fields_frame _ s (keeps_scan exec_command in_time)).
  pose proof (scan_keeps_path exec_command in_time s) as H. unfold wp in H.
  rewrite H. symmetry. apply set_path_same.
Qed.

(** X17: what the lookup of the data volume returns, in terms of the
    mount table of the container: when the JSON of the mounts contains the
    text [/data] and the sources of the mounts whose destination is
    exactly [/data], joined and stripped, are not empty, that text;
    otherwise the first line of the sources of all mounts, joined and
    stripped, or none when that line is empty. *)
Theorem volume_lookup_by_mount_table :
  forall (World : Type)
         (exec_command : World -> string -> World * ExecResult)
         (w : World) (a : App) (c : Container) (ms : list Mount),
    answers_inspect exec_command (name c) ms ->
    homebox_container a = Some c ->
    value (_get_volume_path exec_command (w, a))
    = inr (let wanted :=
             strip (String.concat EmptyString
                                  (map Source (filter is_data ms))) in
           if contains "/data" (inspect_output ms mounts_json)
              && truthy wanted
           then Some wanted
           else fallback_value ms).
Proof.
  intros World exec_command w a c ms H Hc.
  exact (volume_path_value exec_command (name c) ms H w a c Hc eq_refl).
Qed.

Lemma volume_lookup_by_mount_table_witness :
  let ms := [config_mount; data_volume; cache_mount] in
  value (_get_volume_path (docker_host "homebox" ms)
                          (tt, app_selected false None))
  = inr (let wanted :=
           strip (String.concat EmptyString
                                (map Source (filter is_data ms))) in
         if contains "/data" (inspect_output ms mounts_json)
            && truthy wanted
         then Some wanted
         else fallback_value ms).
Proof.
  apply (volume_lookup_by_mount_table unit
           (docker_host "homebox" [config_mount; data_volume; cache_mount])
           tt (app_selected false None) homebox_c
           [config_mount; data_volume; cache_mount]).
  - apply docker_host_answers.
  - reflexivity.
Defined.
